(** * A verified model of the line interpreter of [interpret.py]

    The development embeds the class [Interpreter] of [src/interpret.py]:
    the five regular expressions that classify a line, the expression
    evaluator [eval_expr] (character check, substitution of variables by
    [re.sub], Python's [eval] on what remains), the condition evaluator
    [eval_condition] and the line loop [parse_and_run].

    Conventions of the model.
    - A Python [str] is a [list ascii]; a character is its code point,
      so the texts covered are the Latin-1 ones (code points 0..255), and
      the Unicode classes [\s], [\w] and [str.isspace] are the ones
      Python uses, restricted to that range.
    - A Python [int] is a [Z]; a Python [float] is a binary64 number,
      [spec_float] with precision 53 and maximal exponent 1024.
    - The dictionary [self.vars] is a [gmap] from names to pairs of a
      declared type and an optional value ([None] is the unset value).
    - A diagnostic is a line number and a structured message, one
      constructor per call of [self.error] in the source, with the
      names and texts that the message quotes; of an exception quoted
      in a message, the class is kept.
    - An exception that leaves [parse_and_run] is an explicit outcome of
      the run.
    - The semantics is that of Python 3: [round] rounds half to even,
      [str] of a float is its shortest representation, an [int] is
      unbounded. *)

From Stdlib Require Import ZArith List Ascii String Bool Lia.
From Stdlib Require Import SpecFloat DecimalString.
From Stdlib Require DecimalPos DecimalFacts.
From stdpp Require Import base option list gmap strings.

Import ListNotations.
Local Open Scope Z_scope.

(** ** Text *)

Abbreviation text := (list ascii).

(** String literals of the examples. *)
Definition T (s : string) : text := list_ascii_of_string s.

Definition code (c : ascii) : N := N_of_ascii c.

Definition in_range (lo hi : N) (c : ascii) : bool :=
  ((lo <=? code c) && (code c <=? hi))%N.

Definition is_char (n : N) (c : ascii) : bool := (code c =? n)%N.

(** [[0-9]] *)
Definition is_digit (c : ascii) : bool := in_range 48 57 c.

(** [[A-Za-z]] *)
Definition is_letter (c : ascii) : bool := in_range 65 90 c || in_range 97 122 c.

(** [str.isspace] and [\s] on a [str] pattern: Unicode white space. *)
Definition is_space (c : ascii) : bool :=
  in_range 9 13 c || in_range 28 32 c || is_char 133 c || is_char 160 c.

(** [\w] on a [str] pattern: alphanumeric in Unicode, or the underscore. *)
Definition is_word (c : ascii) : bool :=
  is_digit c || is_letter c || is_char 95 c
  || is_char 170 c || is_char 178 c || is_char 179 c || is_char 181 c
  || is_char 185 c || is_char 186 c || in_range 188 190 c
  || in_range 192 214 c || in_range 216 246 c || in_range 248 255 c.

(** The line boundaries of [str.splitlines]. *)
Definition is_linebreak (c : ascii) : bool :=
  in_range 10 13 c || in_range 28 30 c || is_char 133 c.

Definition lower (c : ascii) : ascii :=
  if in_range 65 90 c then ascii_of_N (code c + 32) else c.

Definition text_eqb (a b : text) : bool := bool_decide (a = b).

(** [str.splitlines()] *)
Fixpoint splitlines_from (cur : text) (s : text) : list text :=
  match s with
  | [] => match cur with [] => [] | _ => [rev cur] end
  | c :: t =>
      if is_linebreak c then
        match t with
        | d :: t' =>
            if is_char 13 c && is_char 10 d
            then rev cur :: splitlines_from [] t'
            else rev cur :: splitlines_from [] t
        | [] => [rev cur]
        end
      else splitlines_from (c :: cur) t
  end.

Definition splitlines (s : text) : list text := splitlines_from [] s.

(** [str.strip()] *)
Fixpoint lstrip (s : text) : text :=
  match s with
  | c :: t => if is_space c then lstrip t else s
  | [] => []
  end.

Definition rstrip (s : text) : text := rev (lstrip (rev s)).

Definition strip (s : text) : text := rstrip (lstrip s).

(** [s.startswith('"') and s.endswith('"')] *)
Definition quoted (s : text) : bool :=
  match s with
  | c :: _ => is_char 34 c && match last s with Some d => is_char 34 d | None => false end
  | [] => false
  end.

(** [s[1:-1]] *)
Definition strip_quotes (s : text) : text := removelast (tail s).

(** ** Regular expressions

    The matcher follows the backtracking search of Python's [re]: it
    returns the successful paths in the order in which the search tries
    them, so the match that [re.match] reports is the first one. *)

Module Re.

Inductive regex :=
| Eps
| Cls (p : ascii -> bool)
| Cat (r1 r2 : regex)
| Alt (r1 r2 : regex)
| Star (greedy : bool) (p : ascii -> bool)
| Grp (n : nat) (r : regex)
| Bos
| Eos
| Wordb.

Record mstate := MState
  { prev : option ascii;
    rest : text;
    caps : list (nat * text) }.

Definition advance (c : ascii) (t : text) (st : mstate) : mstate :=
  MState (Some c) t (caps st).

(** All the ways to iterate a character class, in the order of the
    search: the longest first when greedy, the shortest first when lazy. *)
Fixpoint star_states (greedy : bool) (p : ascii -> bool) (cs : list (nat * text))
    (pr : option ascii) (s : text) : list mstate :=
  match s with
  | c :: t =>
      if p c then
        if greedy
        then star_states greedy p cs (Some c) t ++ [MState pr s cs]
        else MState pr s cs :: star_states greedy p cs (Some c) t
      else [MState pr s cs]
  | [] => [MState pr s cs]
  end.

Definition word_opt (o : option ascii) : bool :=
  match o with Some c => is_word c | None => false end.

Definition consumed (st st' : mstate) : text :=
  firstn (length (rest st) - length (rest st'))%nat (rest st).

Definition set_group (n : nat) (st st' : mstate) : mstate :=
  MState (prev st') (rest st') ((n, consumed st st') :: caps st').

Fixpoint rmatch (r : regex) (st : mstate) : list mstate :=
  match r with
  | Eps => [st]
  | Cls p =>
      match rest st with
      | c :: t => if p c then [advance c t st] else []
      | [] => []
      end
  | Cat r1 r2 => flat_map (rmatch r2) (rmatch r1 st)
  | Alt r1 r2 => rmatch r1 st ++ rmatch r2 st
  | Star g p => star_states g p (caps st) (prev st) (rest st)
  | Grp n r => map (set_group n st) (rmatch r st)
  | Bos => match prev st with None => [st] | Some _ => [] end
  | Eos =>
      match rest st with
      | [] => [st]
      | [c] => if is_char 10 c then [st] else []
      | _ => []
      end
  | Wordb =>
      if xorb (word_opt (prev st)) (word_opt (head (rest st))) then [st] else []
  end.

Fixpoint group (n : nat) (cs : list (nat * text)) : option text :=
  match cs with
  | (k, s) :: cs' => if (k =? n)%nat then Some s else group n cs'
  | [] => None
  end.

(** [pattern.match(s)] *)
Definition rematch (r : regex) (s : text) : option mstate :=
  head (rmatch r (MState None s [])).

(** [m.group(n)] of a group that took part in the match. *)
Definition grp (n : nat) (m : mstate) : text :=
  match group n (caps m) with Some s => s | None => [] end.

(** Pattern combinators. *)
Definition chr (c : ascii) : regex := Cls (fun d => bool_decide (d = c)).
Definition chr_i (c : ascii) : regex := Cls (fun d => bool_decide (lower d = lower c)).
Definition lit (s : string) : regex :=
  fold_right (fun c r => Cat (chr c) r) Eps (list_ascii_of_string s).
Definition lit_i (s : string) : regex :=
  fold_right (fun c r => Cat (chr_i c) r) Eps (list_ascii_of_string s).
Definition seq (rs : list regex) : regex := fold_right Cat Eps rs.
Definition dot (c : ascii) : bool := negb (is_char 10 c).
Definition plus (greedy : bool) (p : ascii -> bool) : regex := Cat (Cls p) (Star greedy p).
Definition spaces : regex := Star true is_space.
(** [[A-Za-z] \w*]; under IGNORECASE the class keeps its meaning on the
    code points of the model. *)
Definition ident : regex := Cat (Cls is_letter) (Star true is_word).

End Re.

Import Re.

(** [RE_DECL], compiled with IGNORECASE. Spaced out, the pattern reads
    [^ \s* ( [A-Za-z] \w* ) \s* : \s* ( integer | double ) \s* ; \s* $]. *)
Definition RE_DECL : regex :=
  seq [Bos; spaces; Grp 1 ident; spaces; chr ":"; spaces;
       Grp 2 (Alt (lit_i "integer") (lit_i "double")); spaces; chr ";"; spaces; Eos].

(** [RE_ASSIGN], IGNORECASE:
    [^ \s* ( [A-Za-z] \w* ) \s* (?: := | = ) \s* ( .+? ) \s* ; \s* $]. *)
Definition RE_ASSIGN : regex :=
  seq [Bos; spaces; Grp 1 ident; spaces; Alt (lit ":=") (lit "="); spaces;
       Grp 2 (plus false dot); spaces; chr ";"; spaces; Eos].

(** [RE_OUTPUT], IGNORECASE:
    [^ \s* output \s* << \s* ( .+? ) \s* ; \s* $]. *)
Definition RE_OUTPUT : regex :=
  seq [Bos; spaces; lit_i "output"; spaces; lit "<<"; spaces;
       Grp 1 (plus false dot); spaces; chr ";"; spaces; Eos].

(** [RE_IF], IGNORECASE:
    [^ \s* if \s* \( \s* ( .+? ) \s* \) \s* ( .+ ) $]. *)
Definition RE_IF : regex :=
  seq [Bos; spaces; lit_i "if"; spaces; chr "("; spaces;
       Grp 1 (plus false dot); spaces; chr ")"; spaces;
       Grp 2 (plus true dot); Eos].

(** [RE_COND]:
    [^ \s* ( .+? ) \s* ( == | != | > | < ) \s* ( .+? ) \s* $]. *)
Definition cond_ops : regex :=
  Alt (lit "==") (Alt (lit "!=") (Alt (lit ">") (lit "<"))).

Definition RE_COND : regex :=
  seq [Bos; spaces; Grp 1 (plus false dot); spaces; Grp 2 cond_ops; spaces;
       Grp 3 (plus false dot); spaces; Eos].

(** ** Numbers

    Python's [float] is IEEE binary64, modelled by [spec_float]; the
    operations below are those of the Python runtime on it. *)

Module Num.

Definition prec : Z := 53.
Definition emax : Z := 1024.

Abbreviation float := spec_float.

Definition is_finite (f : float) : bool :=
  match f with
  | S754_zero _ | S754_finite _ _ _ => true
  | _ => false
  end.

Definition sign_of (f : float) : bool :=
  match f with
  | S754_zero s | S754_infinity s | S754_finite s _ _ => s
  | S754_nan => false
  end.

(** The quotient [num / den] of two positive integers, rounded to the
    nearest binary64 number, ties to even. *)
Definition float_of_ratio (s : bool) (num den : Z) : float :=
  match num with
  | Z0 => S754_zero s
  | _ =>
      let '(q, e, l) := SFdiv_core_binary prec emax num 0 den 0 in
      binary_round_aux prec emax s q e l
  end.

(** The conversion of an [int]; the caller raises [OverflowError] when
    the result is infinite. *)
Definition float_of_Z (z : Z) : float := binary_normalize prec emax z 0 false.

(** The magnitude of a finite number as a fraction [num / den]. *)
Definition ratio_of (f : float) : Z * Z :=
  match f with
  | S754_finite _ m e =>
      match e with
      | Zneg p => (Zpos m, 2 ^ Zpos p)
      | _ => (Zpos m * 2 ^ e, 1)
      end
  | _ => (0, 1)
  end.

(** Nearest integer to [num / den], ties to the even one. *)
Definition round_half_even (num den : Z) : Z :=
  let q := num / den in
  match (2 * (num mod den) ?= den) with
  | Lt => q
  | Gt => q + 1
  | Eq => if Z.even q then q else q + 1
  end.

Definition signed (s : bool) (z : Z) : Z := if s then - z else z.

(** [float.is_integer()] *)
Definition is_integer (f : float) : bool :=
  match f with
  | S754_zero _ => true
  | S754_finite _ _ _ => let '(n, d) := ratio_of f in n mod d =? 0
  | _ => false
  end.

(** [round(f)] with one argument: the nearest [int], ties to even;
    [None] stands for the [OverflowError] raised on an infinity and the
    [ValueError] raised on a NaN. *)
Definition py_round (f : float) : option Z :=
  match f with
  | S754_zero _ => Some 0
  | S754_finite s _ _ => let '(n, d) := ratio_of f in Some (signed s (round_half_even n d))
  | _ => None
  end.

(** [int(f)]: truncation towards zero. *)
Definition py_trunc (f : float) : option Z :=
  match f with
  | S754_zero _ => Some 0
  | S754_finite s _ _ => let '(n, d) := ratio_of f in Some (signed s (n / d))
  | _ => None
  end.

(** Decimal digits. *)
Definition digit_val (c : ascii) : Z := Z.of_N (code c) - 48.

Definition Z_of_digits (s : text) : Z :=
  fold_left (fun acc c => 10 * acc + digit_val c) s 0.

(** [str(n)] of an [int]. *)
Definition str_of_Z (z : Z) : text :=
  list_ascii_of_string (NilZero.string_of_int (Z.to_int z)).

Definition nb_digits (z : Z) : Z :=
  Z.of_nat (length (str_of_Z (Z.abs z))).

Definition zeros (n : Z) : text := repeat "0"%char (Z.to_nat n).

Fixpoint strip_zeros_rev (r : text) : text :=
  match r with
  | c :: t => if is_char 48 c then strip_zeros_rev t else r
  | [] => []
  end.

Definition strip_trailing_zeros (s : text) : text := rev (strip_zeros_rev (rev s)).

(** *** [repr] of a float: the shortest digit string that reads back
    as the same number, and the closest to it among those. *)

(** [decpt f] is the [p] with [10^(p-1) <= |f| < 10^p]. *)
Definition decpt (f : float) : Z :=
  let '(n, d) := ratio_of f in
  if d <=? n then nb_digits (n / d) else 1 - nb_digits (d / n).

(** [c * 10^k] as a float. *)
Definition float_of_scaled (c k : Z) : float :=
  match k with
  | Zneg p => float_of_ratio false c (10 ^ Zpos p)
  | _ => float_of_ratio false (c * 10 ^ k) 1
  end.

Definition same_magnitude (f g : float) : bool :=
  match SFcompare (SFabs f) (SFabs g) with Some Eq => true | _ => false end.

(** The candidate with [n] significant digits, if one reads back as [f]. *)
Definition digits_at (f : float) (p n : Z) : option Z :=
  let '(num, den) := ratio_of f in
  let k := p - n in
  let '(a, b) := match k with
                 | Zneg q => (num * 10 ^ Zpos q, den)
                 | _ => (num, den * 10 ^ k)
                 end in
  let lo := a / b in
  let r := a mod b in
  let ok c := same_magnitude (float_of_scaled c k) f in
  if r =? 0 then (if ok lo then Some lo else None)
  else
    match ok lo, ok (lo + 1) with
    | true, true =>
        match (2 * r ?= b) with
        | Lt => Some lo
        | Gt => Some (lo + 1)
        | Eq => Some (if Z.even lo then lo else lo + 1)
        end
    | true, false => Some lo
    | false, true => Some (lo + 1)
    | false, false => None
    end.

Fixpoint shortest_from (f : float) (p : Z) (n : Z) (fuel : nat) : Z * Z :=
  match digits_at f p n with
  | Some c => (c, n)
  | None =>
      match fuel with
      | O => (round_half_even (fst (ratio_of f) * 10 ^ (n - p)) (snd (ratio_of f)), n)
      | S fuel' => shortest_from f p (n + 1) fuel'
      end
  end.

(** The digits of [f] and the position of the decimal point: the
    magnitude of [f] is [0.d1d2... * 10^dp]. *)
Definition shortest_digits (f : float) : text * Z :=
  let p := decpt f in
  let '(c, n) := shortest_from f p 1 16 in
  let ds := str_of_Z c in
  (strip_trailing_zeros ds, p + (Z.of_nat (length ds) - n)).

Definition exponent_text (x : Z) : text :=
  (if x <? 0 then ["-"%char] else ["+"%char])
  ++ (if Z.abs x <? 10 then ["0"%char] else []) ++ str_of_Z (Z.abs x).

(** [repr(f)], which is also [str(f)]. *)
Definition repr_float (f : float) : text :=
  match f with
  | S754_nan => T "nan"
  | S754_infinity s => (if s then T "-inf" else T "inf")
  | S754_zero s => (if s then T "-0.0" else T "0.0")
  | S754_finite s _ _ =>
      let '(ds, dp) := shortest_digits f in
      let nd := Z.of_nat (length ds) in
      (if s then ["-"%char] else []) ++
      (if (dp <=? -4) || (16 <? dp) then
         firstn 1 ds ++ (if 1 <? nd then "."%char :: skipn 1 ds else [])
         ++ "e"%char :: exponent_text (dp - 1)
       else if dp <=? 0 then T "0." ++ zeros (- dp) ++ ds
       else if nd <=? dp then ds ++ zeros (dp - nd) ++ T ".0"
       else firstn (Z.to_nat dp) ds ++ "."%char :: skipn (Z.to_nat dp) ds)
  end.

(** [f"{f:.2f}"] *)
Definition format_2f (f : float) : text :=
  match f with
  | S754_nan => T "nan"
  | S754_infinity s => (if s then T "-inf" else T "inf")
  | _ =>
      let '(n, d) := ratio_of f in
      let c := round_half_even (n * 100) d in
      let frac := c mod 100 in
      (if sign_of f then ["-"%char] else []) ++ str_of_Z (c / 100) ++ "."%char ::
      (if frac <? 10 then ["0"%char] else []) ++ str_of_Z frac
  end.

End Num.

Import Num.

(** ** Python values and [eval]

    [eval] is reached with a text made of digits, [.], [+], [-],
    parentheses and white space only (the second check of [eval_expr]
    guarantees it), and the text comes from one source line, so it holds
    no line boundary ([splitlines_no_linebreak]). On that alphabet
    Python's expression grammar has the number literals, the ellipsis
    [...], the empty tuple [()], grouping, calls [f()] and [f(x)], unary
    and binary [+] and [-]. Between tokens the scanner passes spaces and
    tabs; the other white space that a line can hold (U+001F, U+00A0) is
    a syntax error, and so is here any line boundary, which no line
    holds. The model is the language without the resource limits of an
    implementation (nesting depth of the parser, length of an integer
    literal). *)

Module Py.

Inductive value :=
| VInt (z : Z)
| VFloat (f : float)
| VTuple
| VEllipsis.

Inductive exn := SyntaxError | TypeError | OverflowError | ValueError.

Inductive result (A : Type) :=
| Ok (a : A)
| Raise (e : exn).
Arguments Ok {A} a.
Arguments Raise {A} e.

#[export] Instance result_bind : MBind result := fun A B k r =>
  match r with
  | Ok a => k a
  | Raise e => Raise e
  end.

(** [str(v)] *)
Definition py_str (v : value) : text :=
  match v with
  | VInt z => str_of_Z z
  | VFloat f => repr_float f
  | VTuple => T "()"
  | VEllipsis => T "Ellipsis"
  end.

(** [float(v)] *)
Definition py_float (v : value) : result float :=
  match v with
  | VInt z =>
      let f := float_of_Z z in
      if is_finite f then Ok f else Raise OverflowError
  | VFloat f => Ok f
  | _ => Raise TypeError
  end.

(** [round(f)] *)
Definition py_round_float (f : float) : result Z :=
  match py_round f with
  | Some z => Ok z
  | None => match f with S754_nan => Raise ValueError | _ => Raise OverflowError end
  end.

(** [int(f)] *)
Definition py_int_float (f : float) : result Z :=
  match py_trunc f with
  | Some z => Ok z
  | None => match f with S754_nan => Raise ValueError | _ => Raise OverflowError end
  end.

(** *** Tokens *)

Inductive token :=
| TNum (v : value)
| TEllipsis
| TPlus
| TMinus
| TLpar
| TRpar.

(** What the scanner holds between two characters: nothing, the digits
    of an integer, the digits of a number with a point (integer part and
    fraction, both reversed), or one or two points that are not part of
    a number. *)
Inductive pending :=
| PNone
| PInt (ds : text)
| PFrac (ds fs : text)
| PDots (two : bool).

(** A decimal integer literal has no leading zero unless it is zero. *)
Definition int_literal_ok (ds : text) : bool :=
  match ds with
  | c :: _ => negb (is_char 48 c) || forallb (is_char 48) ds
  | [] => false
  end.

(** The token a pending item ends as; a lone point is a token of the
    language that no expression of this alphabet can use. *)
Definition flush (p : pending) : option (list token) :=
  match p with
  | PNone => Some []
  | PInt ds =>
      if int_literal_ok (rev ds) then Some [TNum (VInt (Z_of_digits (rev ds)))] else None
  | PFrac ds fs =>
      Some [TNum (VFloat (float_of_ratio false (Z_of_digits (rev ds ++ rev fs))
                                          (10 ^ Z.of_nat (length fs))))]
  | PDots _ => None
  end.

Definition emit (p : pending) (ts : list token) (k : option (list token)) : option (list token) :=
  match flush p, k with
  | Some l, Some r => Some (l ++ ts ++ r)
  | _, _ => None
  end.

Fixpoint lex (p : pending) (s : text) : option (list token) :=
  match s with
  | [] => flush p
  | c :: t =>
      if is_digit c then
        match p with
        | PNone => lex (PInt [c]) t
        | PInt ds => lex (PInt (c :: ds)) t
        | PFrac ds fs => lex (PFrac ds (c :: fs)) t
        | PDots false => lex (PFrac [] [c]) t
        | PDots true => None
        end
      else if is_char 46 c then
        match p with
        | PNone => lex (PDots false) t
        | PInt ds => lex (PFrac ds []) t
        | PFrac _ _ => emit p [] (lex (PDots false) t)
        | PDots false => lex (PDots true) t
        | PDots true => emit PNone [TEllipsis] (lex PNone t)
        end
      else if is_char 32 c || is_char 9 c then emit p [] (lex PNone t)
      else if is_char 43 c then emit p [TPlus] (lex PNone t)
      else if is_char 45 c then emit p [TMinus] (lex PNone t)
      else if is_char 40 c then emit p [TLpar] (lex PNone t)
      else if is_char 41 c then emit p [TRpar] (lex PNone t)
      else None
  end.

(** *** Syntax *)

Inductive ast :=
| AConst (v : value)
| APos (a : ast)
| ANeg (a : ast)
| AAdd (a b : ast)
| ASub (a b : ast)
| ACall0 (f : ast)
| ACall1 (f arg : ast).

(** One level of parentheses while it is read: the sum so far with the
    binary operator that follows it ([true] for [-]), the unary signs
    read since, the most recent first, and the operand being read. *)
Record frame := Frame
  { acc : option (ast * bool);
    signs : list bool;
    cur : option ast }.

Definition empty_frame : frame := Frame None [] None.

Definition is_empty (fr : frame) : bool :=
  match acc fr, signs fr, cur fr with
  | None, [], None => true
  | _, _, _ => false
  end.

Definition apply_signs (ss : list bool) (a : ast) : ast :=
  fold_left (fun (a : ast) (s : bool) => if s then ANeg a else APos a) ss a.

Definition combine (left : option (ast * bool)) (x : ast) : ast :=
  match left with
  | None => x
  | Some (l, true) => ASub l x
  | Some (l, false) => AAdd l x
  end.

Definition finish (fr : frame) : option ast :=
  match cur fr with
  | Some a => Some (combine (acc fr) (apply_signs (signs fr) a))
  | None => None
  end.

Definition set_cur (fr : frame) (a : ast) : frame := Frame (acc fr) (signs fr) (Some a).

Fixpoint parse (stack : list frame) (top : frame) (ts : list token) : option ast :=
  match ts with
  | [] => match stack with [] => finish top | _ => None end
  | TNum v :: ts' =>
      match cur top with
      | None => parse stack (set_cur top (AConst v)) ts'
      | Some _ => None
      end
  | TEllipsis :: ts' =>
      match cur top with
      | None => parse stack (set_cur top (AConst VEllipsis)) ts'
      | Some _ => None
      end
  | (TPlus | TMinus) as t :: ts' =>
      let s := match t with TMinus => true | _ => false end in
      match cur top with
      | None => parse stack (Frame (acc top) (s :: signs top) None) ts'
      | Some a =>
          parse stack (Frame (Some (combine (acc top) (apply_signs (signs top) a), s)) [] None) ts'
      end
  | TLpar :: ts' => parse (top :: stack) empty_frame ts'
  | TRpar :: ts' =>
      match stack with
      | [] => None
      | parent :: stack' =>
          let inner := if is_empty top then Some None else option_map Some (finish top) in
          match inner, cur parent with
          | None, _ => None
          | Some None, Some f => parse stack' (set_cur parent (ACall0 f)) ts'
          | Some (Some e), Some f => parse stack' (set_cur parent (ACall1 f e)) ts'
          | Some None, None => parse stack' (set_cur parent (AConst VTuple)) ts'
          | Some (Some e), None => parse stack' (set_cur parent e) ts'
          end
      end
  end.

(** *** Evaluation *)

Definition neg (v : value) : result value :=
  match v with
  | VInt z => Ok (VInt (- z))
  | VFloat f => Ok (VFloat (SFopp f))
  | _ => Raise TypeError
  end.

Definition pos (v : value) : result value :=
  match v with
  | VInt _ | VFloat _ => Ok v
  | _ => Raise TypeError
  end.

Definition add (a b : value) : result value :=
  match a, b with
  | VInt x, VInt y => Ok (VInt (x + y))
  | VFloat f, VFloat g => Ok (VFloat (SFadd prec emax f g))
  | VInt _, VFloat g => f ← py_float a; Ok (VFloat (SFadd prec emax f g))
  | VFloat f, VInt _ => g ← py_float b; Ok (VFloat (SFadd prec emax f g))
  | VTuple, VTuple => Ok VTuple
  | _, _ => Raise TypeError
  end.

Definition sub (a b : value) : result value :=
  match a, b with
  | VInt x, VInt y => Ok (VInt (x - y))
  | VFloat f, VFloat g => Ok (VFloat (SFsub prec emax f g))
  | VInt _, VFloat g => f ← py_float a; Ok (VFloat (SFsub prec emax f g))
  | VFloat f, VInt _ => g ← py_float b; Ok (VFloat (SFsub prec emax f g))
  | _, _ => Raise TypeError
  end.

Fixpoint eval_ast (a : ast) : result value :=
  match a with
  | AConst v => Ok v
  | APos a => v ← eval_ast a; pos v
  | ANeg a => v ← eval_ast a; neg v
  | AAdd a b => x ← eval_ast a; y ← eval_ast b; add x y
  | ASub a b => x ← eval_ast a; y ← eval_ast b; sub x y
  | ACall0 f => _ ← eval_ast f; Raise TypeError
  | ACall1 f b => _ ← eval_ast f; _ ← eval_ast b; Raise TypeError
  end.

(** [eval(s, {...}, {})] *)
Definition py_eval (s : text) : result value :=
  match lex PNone s with
  | None => Raise SyntaxError
  | Some ts =>
      match parse [] empty_frame ts with
      | None => Raise SyntaxError
      | Some a => eval_ast a
      end
  end.

(** *** Comparisons *)

(** The order of an [int] and a [float], on their exact values. *)
Definition compare_Z_float (z : Z) (f : float) : option comparison :=
  match f with
  | S754_nan => None
  | S754_infinity s => Some (if s then Gt else Lt)
  | S754_zero _ => Some (z ?= 0)
  | S754_finite s m e =>
      match e with
      | Zneg p => Some (z * 2 ^ Zpos p ?= signed s (Zpos m))
      | _ => Some (z ?= signed s (Zpos m * 2 ^ e))
      end
  end.

Definition compare_num (a b : value) : result (option comparison) :=
  match a, b with
  | VInt x, VInt y => Ok (Some (x ?= y))
  | VFloat f, VFloat g => Ok (SFcompare f g)
  | VInt x, VFloat g => Ok (compare_Z_float x g)
  | VFloat f, VInt y => Ok (option_map CompOpp (compare_Z_float y f))
  | VTuple, VTuple => Ok (Some Eq)
  | _, _ => Raise TypeError
  end.

(** [a == b] *)
Definition py_eq (a b : value) : bool :=
  match a, b with
  | VEllipsis, VEllipsis => true
  | _, _ =>
      match compare_num a b with
      | Ok (Some Eq) => true
      | _ => false
      end
  end.

(** [a < b] *)
Definition py_lt (a b : value) : result bool :=
  c ← compare_num a b;
  Ok match c with Some Lt => true | _ => false end.

(** [a > b] *)
Definition py_gt (a b : value) : result bool :=
  c ← compare_num a b;
  Ok match c with Some Gt => true | _ => false end.

End Py.

Import Py.

(** ** The interpreter *)

(** The messages passed to [self.error], one constructor per call. *)
Inductive message :=
| Redeclared (name : text)
| AssignUndeclared (name : text)
| AssignUndeclaredInIf (name : text)
| CannotConvert (name : text)
| IfNoSemicolon
| UnsupportedInIf
| Unrecognized
| IllegalCharacter (expr : text)
| UsedBeforeAssignment (name : text)
| UndeclaredInExpression (name : text)
| IllegalAfterSubstitution (expr_sub : text)
| EvalError (expr : text) (e : exn)
| InvalidCondition (cond : text)
| UnsupportedOperator (op : text)
| ConditionError (e : exn).

(** An entry of [self.errors]: the line number given to [self.error]
    (the prefix [Line n:] of the entry), and the message. *)
Record diag := Diag
  { line : option nat;
    msg : message }.

Record interp := Interp
  { source_lines : list text;
    vars : gmap text (text * option value);
    errors : list diag;
    outputs : list text }.

(** [Interpreter.__init__] *)
Definition Interpreter (source_text : text) : interp :=
  Interp (splitlines source_text) ∅ [] [].

(** [Interpreter.error] *)
Definition error (st : interp) (m : message) (lineno : option nat) : interp :=
  Interp (source_lines st) (vars st) (errors st ++ [Diag lineno m]) (outputs st).

Definition set_var (st : interp) (name : text) (typ : text) (val : option value) : interp :=
  Interp (source_lines st) (<[name := (typ, val)]> (vars st)) (errors st) (outputs st).

Definition append_output (st : interp) (s : text) : interp :=
  Interp (source_lines st) (vars st) (errors st) (outputs st ++ [s]).

(** *** [eval_expr] *)

(** The class [[A-Za-z0-9\.\+\-\(\)\s]] of the first check. *)
Definition expr_char (c : ascii) : bool :=
  is_letter c || is_digit c || is_char 46 c || is_char 43 c || is_char 45 c
  || is_char 40 c || is_char 41 c || is_space c.

(** The class [[0-9\.\+\-\(\)\s]] of the check after substitution. *)
Definition arith_char (c : ascii) : bool :=
  is_digit c || is_char 46 c || is_char 43 c || is_char 45 c
  || is_char 40 c || is_char 41 c || is_space c.

(** [\b [A-Za-z] \w* \b] *)
Definition RE_NAME : regex := seq [Wordb; Cls is_letter; Star true is_word; Wordb].

(** [re.sub(pattern, repl, s)] for a pattern that matches no empty
    text: the matches are looked for from left to right, each is
    replaced by what [repl] returns, and the search goes on after it.
    An exception of [repl] ends the substitution. [skip] counts the
    characters of the current match that are still to be passed. *)
Fixpoint re_sub_from {E : Type} (r : regex) (repl : text -> E + text)
    (pr : option ascii) (s : text) (skip : nat) : E + text :=
  match s with
  | [] => inr []
  | c :: t =>
      match skip with
      | S k => re_sub_from r repl (Some c) t k
      | O =>
          let st := MState pr s [] in
          match head (rmatch r st) with
          | Some m =>
              match consumed st m with
              | [] => match re_sub_from r repl (Some c) t O with
                      | inr u => inr (c :: u)
                      | inl e => inl e
                      end
              | w =>
                  match repl w with
                  | inl e => inl e
                  | inr v =>
                      match re_sub_from r repl (Some c) t (length w - 1) with
                      | inr u => inr (v ++ u)
                      | inl e => inl e
                      end
                  end
              end
          | None => match re_sub_from r repl (Some c) t O with
                    | inr u => inr (c :: u)
                    | inl e => inl e
                    end
          end
      end
  end.

Definition re_sub {E : Type} (r : regex) (repl : text -> E + text) (s : text) : E + text :=
  re_sub_from r repl None s O.

(** [var_repl]: the text of the value of a name, or the message it
    records before it raises [ValueError]. *)
Definition var_repl (vs : gmap text (text * option value)) (name : text) : message + text :=
  match vs !! name with
  | Some (_, None) => inl (UsedBeforeAssignment name)
  | Some (_, Some val) => inr (py_str val)
  | None => inl (UndeclaredInExpression name)
  end.

(** [eval_expr] returns [(val, True)], here [Some val], or
    [(None, False)], here [None]. *)
Definition eval_expr (st : interp) (expr : text) (lineno : nat) : interp * option value :=
  if existsb (fun c => negb (expr_char c)) expr then
    (error st (IllegalCharacter expr) (Some lineno), None)
  else
    match re_sub RE_NAME (var_repl (vars st)) expr with
    | inl m => (error st m (Some lineno), None)
    | inr expr_sub =>
        if existsb (fun c => negb (arith_char c)) expr_sub then
          (error st (IllegalAfterSubstitution expr_sub) (Some lineno), None)
        else
          match py_eval expr_sub with
          | Ok val => (st, Some val)
          | Raise ValueError => (st, None)
          | Raise e => (error st (EvalError expr e) (Some lineno), None)
          end
    end.

(** *** [eval_condition] *)

(** [eval_condition] returns [(True, b)], here [Some b], or
    [(None, False)], here [None]. *)
Definition eval_condition (st : interp) (cond : text) (lineno : nat) : interp * option bool :=
  match rematch RE_COND cond with
  | None => (error st (InvalidCondition cond) (Some lineno), None)
  | Some m =>
      let left := strip (grp 1 m) in
      let op := grp 2 m in
      let right := strip (grp 3 m) in
      match eval_expr st left lineno with
      | (st1, None) => (st1, None)
      | (st1, Some lv) =>
          match eval_expr st1 right lineno with
          | (st2, None) => (st2, None)
          | (st2, Some rv) =>
              let compared :=
                if text_eqb op (T "==") then Ok (Some (py_eq lv rv))
                else if text_eqb op (T "!=") then Ok (Some (negb (py_eq lv rv)))
                else if text_eqb op (T ">") then b ← py_gt lv rv; Ok (Some b)
                else if text_eqb op (T "<") then b ← py_lt lv rv; Ok (Some b)
                else Ok None in
              match compared with
              | Ok (Some b) => (st2, Some b)
              | Ok None => (error st2 (UnsupportedOperator op) (Some lineno), None)
              | Raise e => (error st2 (ConditionError e) (Some lineno), None)
              end
          end
      end
  end.

(** *** Statements *)

(** How the body of the loop of [parse_and_run] ends for one line:
    normally (it falls through or reaches a [continue]), or with an
    exception that nothing catches. *)
Inductive outcome :=
| Done (st : interp)
| Crashed (e : exn) (st : interp).

(** The text an output statement appends for a value. *)
Definition display (val : value) : text :=
  match val with
  | VFloat f =>
      if negb (is_integer f) then format_2f f
      else match py_int_float f with Ok z => str_of_Z z | Raise _ => py_str val end
  | _ =>
      match (f ← py_float val; if is_integer f then z ← py_int_float f; Ok (str_of_Z z)
                               else Ok (py_str val)) with
      | Ok s => s
      | Raise _ => py_str val
      end
  end.

(** The assignment block, written twice in the source: at top level
    and inside a conditional, where only the message on an undeclared
    target differs. *)
Definition assign (in_if : bool) (st : interp) (name expr : text) (i : nat) : outcome :=
  match vars st !! name with
  | None =>
      Done (error st (if in_if then AssignUndeclaredInIf name else AssignUndeclared name) (Some i))
  | Some (typ, _) =>
      match eval_expr st expr i with
      | (st1, None) => Done st1
      | (st1, Some val) =>
          if text_eqb typ (T "integer") then
            match (f ← py_float val; py_round_float f) with
            | Ok z => Done (set_var st1 name typ (Some (VInt z)))
            | Raise _ => Done (error st1 (CannotConvert name) (Some i))
            end
          else
            match py_float val with
            | Ok f => Done (set_var st1 name typ (Some (VFloat f)))
            | Raise e => Crashed e st1
            end
      end
  end.

(** The output block, written twice in the source as well. *)
Definition output (st : interp) (payload : text) (i : nat) : outcome :=
  if quoted payload then Done (append_output st (strip_quotes payload))
  else
    match eval_expr st payload i with
    | (st1, None) => Done st1
    | (st1, Some val) => Done (append_output st1 (display val))
    end.

(** [s.endswith(";")] *)
Definition ends_with_semicolon (s : text) : bool :=
  match last s with Some c => is_char 59 c | None => false end.

(** The conditional block: the condition is evaluated; if it holds,
    the inner statement must end with a semicolon and is matched against
    [RE_ASSIGN], then [RE_OUTPUT]. *)
Definition conditional (st : interp) (cond stmt : text) (i : nat) : outcome :=
  match eval_condition st cond i with
  | (st1, None) => Done st1
  | (st1, Some false) => Done st1
  | (st1, Some true) =>
      if negb (ends_with_semicolon stmt) then Done (error st1 IfNoSemicolon (Some i))
      else
        match rematch RE_ASSIGN stmt with
        | Some m2 => assign true st1 (grp 1 m2) (strip (grp 2 m2)) i
        | None =>
        match rematch RE_OUTPUT stmt with
        | Some m2 => output st1 (strip (grp 1 m2)) i
        | None => Done (error st1 UnsupportedInIf (Some i))
        end
        end
  end.

(** The body of the loop of [parse_and_run] for the line [raw_line]
    numbered [i]: the patterns are tried in the order declaration,
    assignment, output, conditional. *)
Definition process_line (st : interp) (i : nat) (raw_line : text) : outcome :=
  let line := strip raw_line in
  if text_eqb line [] then Done st
  else
    match rematch RE_DECL line with
    | Some m =>
        let name := grp 1 m in
        let typ := map lower (grp 2 m) in
        match vars st !! name with
        | Some _ => Done (error st (Redeclared name) (Some i))
        | None => Done (set_var st name typ None)
        end
    | None =>
    match rematch RE_ASSIGN line with
    | Some m => assign false st (grp 1 m) (strip (grp 2 m)) i
    | None =>
    match rematch RE_OUTPUT line with
    | Some m => output st (strip (grp 1 m)) i
    | None =>
    match rematch RE_IF line with
    | Some m => conditional st (strip (grp 1 m)) (strip (grp 2 m)) i
    | None => Done (error st Unrecognized (Some i))
    end
    end
    end
    end.

(** The loop over [enumerate(self.source_lines, start=1)]. *)
Fixpoint run_lines (st : interp) (i : nat) (lines : list text) : outcome :=
  match lines with
  | [] => Done st
  | raw_line :: rest =>
      match process_line st i raw_line with
      | Done st1 => run_lines st1 (S i) rest
      | Crashed e st1 => Crashed e st1
      end
  end.

(** [Interpreter.parse_and_run] *)
Definition parse_and_run (st : interp) : outcome :=
  run_lines st 1 (source_lines st).

(** One run: [Interpreter(source_text).parse_and_run()]. *)
Definition run (source_text : text) : outcome :=
  parse_and_run (Interpreter source_text).

Definition final (o : outcome) : interp :=
  match o with
  | Done st | Crashed _ st => st
  end.

Definition nl : text := ["010"%char].

(** A program given by its lines. *)
Definition program (lines : list string) : text :=
  concat (map (fun l => T l ++ nl) lines).

(** ** Notions used by the statements *)

(** The matches of a pattern in a text, from left to right, as
    [re.findall] lists them: the occurrences that [re_sub] replaces. *)
Fixpoint re_findall_from (r : regex) (pr : option ascii) (s : text) (skip : nat) : list text :=
  match s with
  | [] => []
  | c :: t =>
      match skip with
      | S k => re_findall_from r (Some c) t k
      | O =>
          let st := MState pr s [] in
          match head (rmatch r st) with
          | Some m =>
              match consumed st m with
              | [] => re_findall_from r (Some c) t O
              | w => w :: re_findall_from r (Some c) t (length w - 1)
              end
          | None => re_findall_from r (Some c) t O
          end
      end
  end.

Definition re_findall (r : regex) (s : text) : list text := re_findall_from r None s O.

(** The identifier occurrences of an expression. *)
Definition names_of (expr : text) : list text := re_findall RE_NAME expr.

(** The first occurrence whose replacement fails. *)
Fixpoint first_failure {E : Type} (repl : text -> E + text) (ws : list text) : option E :=
  match ws with
  | [] => None
  | w :: ws' =>
      match repl w with
      | inl e => Some e
      | inr _ => first_failure repl ws'
      end
  end.

(** The group numbers of a pattern. *)
Fixpoint groups (r : regex) : list nat :=
  match r with
  | Cat r1 r2 | Alt r1 r2 => groups r1 ++ groups r2
  | Grp n r => n :: groups r
  | _ => []
  end.

(** [k] is a nearest integer to the magnitude [n / d], and the even
    one when two integers are equally near. *)
Definition nearest_ties_even (n d k : Z) : Prop :=
  0 <= k /\ 2 * Z.abs (d * k - n) <= d /\ (2 * Z.abs (d * k - n) = d -> Z.even k = true).

(** [z] is the integer nearest to the float [f], ties to even. *)
Definition rounds_to (f : float) (z : Z) : Prop :=
  exists k, z = signed (sign_of f) k /\ nearest_ties_even (fst (ratio_of f)) (snd (ratio_of f)) k.

(** Rounding as the specification words it: the nearest integer to
    the magnitude [n / d], ties away from zero. *)
Definition round_half_away (n d : Z) : Z := (2 * n + d) / (2 * d).

Definition spec_round (f : float) : Z :=
  signed (sign_of f) (round_half_away (fst (ratio_of f)) (snd (ratio_of f))).

(** The value a run leaves in a variable. *)
Definition stored (o : outcome) (name : string) : option value :=
  match vars (final o) !! T name with
  | Some (_, v) => v
  | None => None
  end.






(** The line is a conditional: [RE_IF] matches it as [m]. (No pattern
    tried before [RE_IF] matches such a line, see [RE_IF_not_DECL],
    [RE_IF_not_ASSIGN] and [RE_IF_not_OUTPUT].) *)
Definition conditional_line (raw_line : text) (m : mstate) : Prop :=
  rematch RE_IF (strip raw_line) = Some m.

(** The line is a conditional whose condition holds in [st] and
    whose inner statement, ending with a semicolon, is [stmt]. *)
Definition taken_conditional (st : interp) (i : nat) (raw_line stmt : text) : Prop :=
  exists m,
    conditional_line raw_line m /\
    eval_condition st (strip (grp 1 m)) i = (st, Some true) /\
    stmt = strip (grp 2 m) /\
    ends_with_semicolon stmt = true.

(** The declaration a line makes: the name and the type. *)
Definition declaration (raw_line : text) : option (text * text) :=
  if text_eqb (strip raw_line) [] then None
  else match rematch RE_DECL (strip raw_line) with
       | Some m => Some (grp 1 m, map lower (grp 2 m))
       | None => None
       end.

Definition declares (name : text) (raw_line : text) : bool :=
  match declaration raw_line with
  | Some (n, _) => text_eqb n name
  | None => false
  end.

Definition is_redeclared (name : text) (d : diag) : bool :=
  match msg d with
  | Redeclared n => text_eqb n name
  | _ => false
  end.

Definition on_line (n : nat) (d : diag) : bool :=
  match line d with
  | Some k => (k =? n)%nat
  | None => false
  end.

(** The messages that [eval_expr] records. *)
Definition expr_message (m : message) : Prop :=
  match m with
  | IllegalCharacter _ | UsedBeforeAssignment _ | UndeclaredInExpression _
  | IllegalAfterSubstitution _ | EvalError _ _ => True
  | _ => False
  end.

(** *** Several runs in one process

    The objects of class [Interpreter] live in a store; a run, as
    [main] makes it, creates an object for the source text and calls
    [parse_and_run] on it, which updates the fields of that object. *)

Abbreviation store := (gmap nat interp).





(** The outcomes of a condition as the specification lists them: a
    boolean, the invalid-format diagnostic, or the failure of one of
    the two sides. *)
Definition listed_outcome (st : interp) (cond : text) (i : nat) : Prop :=
  (exists b, snd (eval_condition st cond i) = Some b) \/
  eval_condition st cond i = (error st (InvalidCondition cond) (Some i), None) \/
  (exists m side st1,
      rematch RE_COND cond = Some m /\
      (side = strip (grp 1 m) \/ side = strip (grp 3 m)) /\
      eval_expr st side i = (st1, None) /\
      eval_condition st cond i = (st1, None)).

(** The four comparison operators. *)
Definition operators : list text := [T "=="; T "!="; T ">"; T "<"].

(** The line is an assignment of [expr] to [name]: [RE_ASSIGN]
    matches the line, or the line is a conditional whose condition holds
    and [RE_ASSIGN] matches its inner statement. *)
Definition assignment_line (st : interp) (i : nat) (raw_line name expr : text) : Prop :=
  (exists m, rematch RE_ASSIGN (strip raw_line) = Some m /\
             name = grp 1 m /\ expr = strip (grp 2 m))
  \/
  (exists stmt m2,
      taken_conditional st i raw_line stmt /\
      rematch RE_ASSIGN stmt = Some m2 /\
      name = grp 1 m2 /\ expr = strip (grp 2 m2)).

(** Inputs of the examples: the state after [x: integer;], and the
    float 2.5. *)
Definition x_integer : interp := final (run (T "x: integer;")).
Definition two_and_a_half : float := float_of_ratio false 25 10.

(** The line is an output statement with payload [payload]:
    [RE_OUTPUT] matches the line, or the line is a conditional whose
    condition holds and [RE_OUTPUT] matches its inner statement. *)
Definition output_line (st : interp) (i : nat) (raw_line payload : text) : Prop :=
  (exists m, rematch RE_OUTPUT (strip raw_line) = Some m /\ payload = strip (grp 1 m))
  \/
  (exists stmt m2,
      taken_conditional st i raw_line stmt /\
      rematch RE_OUTPUT stmt = Some m2 /\
      payload = strip (grp 1 m2)).





(** The outcome that the specification gives to an expression with an
    unset variable: the used-before-assignment diagnostic. *)
Definition unset_reported (st : interp) (expr : text) (i : nat) : Prop :=
  exists n, eval_expr st expr i = (error st (UsedBeforeAssignment n) (Some i), None).

(** Every name of the list has a value. *)
Definition all_assigned (vs : gmap text (text * option value)) (ws : list text) : Prop :=
  forall k, In k ws -> exists ty v, vs !! k = Some (ty, Some v).

(** The messages of a statement other than a declaration. *)
Definition statement_message (m : message) : Prop :=
  match m with
  | Redeclared _ => False
  | _ => True
  end.

(** [st1] is [st], or [st] with one more diagnostic on line [i], whose
    message satisfies [P]. *)
Definition failed_with (P : message -> Prop) (st : interp) (i : nat) (st1 : interp) : Prop :=
  st1 = st \/ exists m, P m /\ st1 = error st m (Some i).

(** What the loop body can do to the state for one line: nothing or
    one diagnostic; one assignment to a declared variable, which keeps
    its type; one output; or, for a declaration, the creation of the
    variable or the redeclaration diagnostic. *)
Definition line_effect (st : interp) (i : nat) (raw_line : text) (st1 : interp) : Prop :=
  failed_with statement_message st i st1 \/
  (exists n typ old val,
      vars st !! n = Some (typ, old) /\ st1 = set_var st n typ (Some val)) \/
  (exists s, st1 = append_output st s) \/
  (exists n typ,
      declaration raw_line = Some (n, typ) /\
      ((vars st !! n = None /\ st1 = set_var st n typ None) \/
       (is_Some (vars st !! n) /\ st1 = error st (Redeclared n) (Some i)))).

(** A text without a line boundary. *)
Definition no_linebreak (l : text) : Prop := forall c, In c l -> is_linebreak c = false.

(** A text that begins, after white space, with a name, white space
    and then the character [x], which is neither white space nor a word
    character; [r] is what follows [x]. *)
Definition name_led (s : text) (x : ascii) (r : text) : Prop :=
  exists ws l w ws3,
    s = ws ++ l :: w ++ ws3 ++ x :: r /\
    forallb is_space ws = true /\ is_letter l = true /\ forallb is_word w = true /\
    forallb is_space ws3 = true /\ is_space x = false /\ is_word x = false.

(** ** The two helpers of the dump files *)

(** [\s+] *)
Definition RE_SPACES : regex := plus true is_space.

(** [remove_whitespace_all]: [re.sub(r'\s+', '', s)]. The replacement
    cannot fail. *)
Definition remove_whitespace_all (s : text) : text :=
  match re_sub RE_SPACES (fun _ => inr [] : Empty_set + text) s with
  | inr u => u
  | inl e => match e with end
  end.

(** [re.search(pattern, s)]: the pattern is tried at every position,
    the end of the text included. *)
Fixpoint re_search_from (r : regex) (pr : option ascii) (s : text) : bool :=
  match head (rmatch r (MState pr s [])) with
  | Some _ => true
  | None =>
      match s with
      | [] => false
      | c :: t => re_search_from r (Some c) t
      end
  end.

Definition re_search (r : regex) (s : text) : bool := re_search_from r None s.

(** [p in s] for two texts. *)
Fixpoint starts_with (p s : text) : bool :=
  match p, s with
  | [], _ => true
  | a :: p', b :: s' => bool_decide (a = b) && starts_with p' s'
  | _ :: _, [] => false
  end.

Fixpoint contains (p s : text) : bool :=
  starts_with p s || match s with [] => false | _ :: t => contains p t end.

(** The sets [RESERVED_WORDS] and [SYMBOLS], listed as the source
    writes them. Python iterates over a set of strings in an order that
    changes from one process to the next; a function that iterates over
    one of them takes the order as an argument. *)
Definition RESERVED_WORDS : list text := [T "integer"; T "double"; T "output"; T "if"].

Definition SYMBOLS : list text :=
  [T ":"; T ";"; T ":="; T "="; T "+"; T "-"; T "("; T ")"; T "<<"; T ">"; T "<";
   T "=="; T "!="; ["034"%char]].

(** [sorted(l, key=len, reverse=True)]: a stable sort, the longest
    first; texts of the same length keep their order. *)
Fixpoint insert_by_len (x : text) (l : list text) : list text :=
  match l with
  | [] => [x]
  | y :: l' => if (length y <=? length x)%nat then x :: l else y :: insert_by_len x l'
  end.

Definition sorted_by_len (l : list text) : list text := fold_right insert_by_len [] l.

(** [\b word \b] under IGNORECASE; [re.escape] leaves a word made of
    letters as it is. *)
Definition word_pattern (word : text) : regex :=
  seq [Wordb; fold_right (fun c r => Cat (chr_i c) r) Eps word; Wordb].

(** [tokenize_symbols_and_reserved], for the orders [words] and [syms]
    in which the two sets are iterated. *)
Definition tokenize_symbols_and_reserved (words syms : list text) (s : text) : list text :=
  List.filter (fun word => re_search (word_pattern word) s) words
  ++ List.filter (fun sym => contains sym s) (sorted_by_len syms).

(** ** Notions used by the statements on the helpers *)

Definition not_space (c : ascii) : bool := negb (is_space c).

(** The character before a position: the last one of the text read so
    far, else the one before that text. *)
Definition prev_of (pr : option ascii) (a : text) : option ascii :=
  match last a with
  | Some c => Some c
  | None => pr
  end.

(** [w] occurs in [s] as a whole word, in any case: between two
    characters that are not word characters, or at an end of the text. *)
Definition whole_word_occurrence (w s : text) : Prop :=
  exists a u b,
    s = a ++ u ++ b /\ map lower u = map lower w /\
    word_opt (last a) = false /\ word_opt (head b) = false.

(** [x] occurs in [s]. *)
Definition occurs (x s : text) : Prop := exists a b, s = a ++ x ++ b.

Definition has_length (n : nat) (x : text) : bool := (length x =? n)%nat.

(** The symbols have one or two characters. *)
Definition short (x : text) : Prop := length x = 1%nat \/ length x = 2%nat.

(** ** Notions used by the statements on the variables *)

(** A name as the patterns capture it: a letter, then word characters. *)
Definition identifier (n : text) : Prop :=
  exists l w, n = l :: w /\ is_letter l = true /\ forallb is_word w = true.






(** The state after [d: double;]. *)
Definition d_double : interp := final (run (T "d: double;")).

(** ** Notions used by the statements on the runs *)

(** The numbers of the list increase strictly and are at least [lo]. *)
Fixpoint ascending (lo : nat) (ks : list nat) : Prop :=
  match ks with
  | [] => True
  | k :: ks' => (lo <= k)%nat /\ ascending (S k) ks'
  end.

(** ** Notions used by the statements on the lines *)

(** The line terminator CR LF. *)
Definition crlf : text := ["013"%char; "010"%char].

(** The lines joined, each followed by the terminator. *)
Definition joined (term : text) (ls : list text) : text :=
  concat (map (fun l => l ++ term) ls).

(** The four patterns that [parse_and_run] tries on a line. *)
Definition statement_patterns : list regex := [RE_DECL; RE_ASSIGN; RE_OUTPUT; RE_IF].

Definition matches (s : text) (r : regex) : bool :=
  match rematch r s with Some _ => true | None => false end.

(** The comparison of two integers that an operator stands for. *)
Definition compare_integers (op : text) (a b : Z) : bool :=
  if text_eqb op (T "==") then a =? b
  else if text_eqb op (T "!=") then negb (a =? b)
  else if text_eqb op (T ">") then b <? a
  else a <? b.

(** The double quote. *)
Definition dquote : ascii := "034"%char.

(** ** Notions used by the statements on the conditions *)

(** The characters of the comparison operators: [<], [=], [>], and
    with [!] those that begin one. *)
Definition comparison_char (c : ascii) : bool :=
  is_char 60 c || is_char 61 c || is_char 62 c.

Definition operator_start (c : ascii) : bool := comparison_char c || is_char 33 c.

(** * Properties *)

(** ** The expression evaluator *)

(** Case analysis on the scrutinees of a hypothesis. *)
Ltac destruct_matches H :=
  repeat (match type of H with
          | context [match ?x with _ => _ end] => destruct x eqn:?
          end; try discriminate H).

Lemma re_sub_from_inl {E : Type} (r : regex) (repl : text -> E + text) s :
  forall pr skip e, re_sub_from r repl pr s skip = inl e -> exists w, repl w = inl e.
Proof.
  induction s as [|c t IH]; intros pr skip e H; simpl in H; [discriminate|].
  destruct_matches H; simplify_eq; eauto.
Qed.

Lemma var_repl_message vs name m : var_repl vs name = inl m -> expr_message m.
Proof.
  unfold var_repl. destruct (vs !! name) as [[ty [v|]]|]; intros H; inversion H; exact I.
Qed.

(** A successful evaluation leaves the state as it was. *)
Lemma eval_expr_ok st expr i st1 v :
  eval_expr st expr i = (st1, Some v) -> st1 = st.
Proof.
  unfold eval_expr.
  destruct (existsb _ expr); [discriminate|].
  destruct (re_sub _ _ expr) as [m|expr_sub]; [discriminate|].
  destruct (existsb _ expr_sub); [discriminate|].
  destruct (py_eval expr_sub) as [val|[]]; congruence.
Qed.

(** A failed evaluation records at most one message, one of its own. *)
Lemma eval_expr_fail st expr i st1 :
  eval_expr st expr i = (st1, None) ->
  st1 = st \/ exists m, st1 = error st m (Some i) /\ expr_message m.
Proof.
  unfold eval_expr.
  destruct (existsb _ expr).
  { intros H; inversion H; right; eexists; split; [reflexivity|exact I]. }
  destruct (re_sub _ _ expr) as [m|expr_sub] eqn:Hs.
  { intros H; inversion H; right; exists m; split; [reflexivity|].
    apply re_sub_from_inl in Hs as [w Hw]. by eapply var_repl_message. }
  destruct (existsb _ expr_sub).
  { intros H; inversion H; right; eexists; split; [reflexivity|exact I]. }
  destruct (py_eval expr_sub) as [val|[]]; intros H; inversion H;
    first [by left | right; eexists; split; [reflexivity|exact I]].
Qed.

(** ** Lines *)

Lemma splitlines_from_no_linebreak (n : nat) :
  forall s cur l,
    (length s <= n)%nat -> no_linebreak cur ->
    In l (splitlines_from cur s) -> no_linebreak l.
Proof.
  induction n as [|n IH]; intros s cur l Hn Hcur Hin.
  - destruct s; [|simpl in Hn; lia]. simpl in Hin.
    destruct cur; [contradiction|]. destruct Hin as [<-|[]].
    intros c Hc. apply Hcur. by apply in_rev.
  - destruct s as [|c t]; simpl in Hin.
    + destruct cur; [contradiction|]. destruct Hin as [<-|[]].
      intros x Hx. apply Hcur. by apply in_rev.
    + simpl in Hn. destruct (is_linebreak c) eqn:Hc.
      * assert (Hrev : no_linebreak (rev cur)) by (intros x Hx; apply Hcur; by apply in_rev).
        destruct t as [|d t']; [destruct Hin as [<-|[]]; exact Hrev|].
        simpl in Hn.
        destruct (is_char 13 c && is_char 10 d); destruct Hin as [<-|Hin]; try exact Hrev.
        -- apply (IH t' [] l); [lia|intros x []|exact Hin].
        -- apply (IH (d :: t') [] l); [simpl; lia|intros x []|exact Hin].
      * apply (IH t (c :: cur) l); [lia| |exact Hin].
        intros x [<-|Hx]; [exact Hc|by apply Hcur].
Qed.

(** A line of [str.splitlines] holds no line boundary: the texts that
    reach [eval] hold none. *)
Lemma splitlines_no_linebreak (s l : text) :
  In l (splitlines s) -> no_linebreak l.
Proof.
  apply (splitlines_from_no_linebreak (length s)); [lia|intros c []].
Qed.

(** ** Patterns *)

Lemma in_rmatch_cat r1 r2 st st' :
  In st' (rmatch (Cat r1 r2) st) <-> exists x, In x (rmatch r1 st) /\ In st' (rmatch r2 x).
Proof. simpl. apply in_flat_map. Qed.

Lemma star_states_caps g p cs s :
  forall pr st', In st' (star_states g p cs pr s) -> caps st' = cs.
Proof.
  induction s as [|c t IH]; intros pr st'; simpl.
  - intros [<-|[]]. reflexivity.
  - destruct (p c); [destruct g|]; simpl; rewrite ?in_app_iff; simpl;
      intros H; repeat destruct H as [H|H]; subst; eauto; contradiction.
Qed.

(** A pattern changes the groups it names, and no other. *)
Lemma rmatch_frame r :
  forall st st' n, In st' (rmatch r st) -> ~ In n (groups r) ->
                   group n (caps st') = group n (caps st).
Proof.
  induction r as [|p|r1 IH1 r2 IH2|r1 IH1 r2 IH2|g p|k r IH| | |];
    intros st st' n Hin Hn; simpl in *.
  - destruct Hin as [<-|[]]. reflexivity.
  - destruct (rest st) as [|c t]; [contradiction|].
    destruct (p c); [|contradiction]. destruct Hin as [<-|[]]. reflexivity.
  - apply in_flat_map in Hin as (x & Hx & Hin).
    rewrite in_app_iff in Hn.
    rewrite (IH2 x st' n), (IH1 st x n); tauto.
  - rewrite in_app_iff in Hin, Hn. destruct Hin; [apply IH1|apply IH2]; tauto.
  - apply star_states_caps in Hin. by rewrite Hin.
  - apply in_map_iff in Hin as (x & <- & Hx). simpl.
    destruct (Nat.eqb_spec k n) as [->|Hk]; [tauto|].
    apply IH; tauto.
  - destruct (prev st); [contradiction|]. destruct Hin as [<-|[]]. reflexivity.
  - destruct (rest st) as [|c [|d t]]; try contradiction.
    + destruct Hin as [<-|[]]. reflexivity.
    + destruct (is_char 10 c); [|contradiction]. destruct Hin as [<-|[]]. reflexivity.
  - destruct (xorb _ _); [|contradiction]. destruct Hin as [<-|[]]. reflexivity.
Qed.

(** A literal consumes exactly its text. *)
Lemma rmatch_literal (cs : text) :
  forall st st',
    In st' (rmatch (fold_right (fun c r => Cat (chr c) r) Eps cs) st) ->
    rest st = cs ++ rest st'.
Proof.
  induction cs as [|c cs IH]; intros st st' Hin; simpl in Hin.
  - destruct Hin as [<-|[]]. reflexivity.
  - apply in_flat_map in Hin as (x & Hx & Hin).
    destruct (rest st) as [|d t] eqn:Hr; [contradiction|].
    case_bool_decide; [|contradiction]. destruct Hx as [<-|[]].
    apply IH in Hin. simpl in Hin. subst. reflexivity.
Qed.

Lemma consumed_prefix (s : text) st st' : rest st = s ++ rest st' -> consumed st st' = s.
Proof.
  intros H. unfold consumed. rewrite H, length_app.
  replace (length s + length (rest st') - length (rest st'))%nat with (length s) by lia.
  by rewrite take_app_length.
Qed.

(** ** The shape of the lines that the patterns match *)

Ltac all_chars c := destruct c as [[|] [|] [|] [|] [|] [|] [|] [|]].

Lemma space_not_word c : is_space c = true -> is_word c = false.
Proof. all_chars c; vm_compute; congruence. Qed.

Lemma letter_is_word c : is_letter c = true -> is_word c = true.
Proof. all_chars c; vm_compute; congruence. Qed.

Lemma is_letter_lower c : is_letter (lower c) = is_letter c.
Proof. all_chars c; vm_compute; congruence. Qed.

Lemma letter_not_space c : is_letter c = true -> is_space c = false.
Proof. intros H. apply letter_is_word in H. destruct (is_space c) eqn:Hs; [|done].
  apply space_not_word in Hs. congruence. Qed.

Lemma lower_letter c (d : ascii) :
  lower c = lower d -> is_letter d = true -> is_letter c = true.
Proof. intros H Hd. by rewrite <- is_letter_lower, H, is_letter_lower. Qed.

Lemma head_In {A} (l : list A) (x : A) : head l = Some x -> In x l.
Proof. destruct l; [discriminate|]. intros H. inversion H. by left. Qed.

Lemma star_states_split g p cs s :
  forall pr st', In st' (star_states g p cs pr s) ->
                 exists pre, s = pre ++ rest st' /\ forallb p pre = true.
Proof.
  induction s as [|c t IH]; intros pr st'; simpl.
  - intros [<-|[]]. by exists [].
  - destruct (p c) eqn:Hp.
    + assert (Hhere : forall x, x = MState pr (c :: t) cs ->
                                exists pre, c :: t = pre ++ rest x /\ forallb p pre = true)
        by (intros x ->; by exists []).
      assert (Hmore : In st' (star_states g p cs (Some c) t) ->
                      exists pre, c :: t = pre ++ rest st' /\ forallb p pre = true).
      { intros H. destruct (IH _ _ H) as (pre & -> & Hpre).
        exists (c :: pre). split; [done|]. simpl. by rewrite Hp. }
      destruct g; simpl; rewrite ?in_app_iff; simpl; intros H;
        repeat destruct H as [H|H]; try contradiction; eauto.
    + intros [<-|[]]. by exists [].
Qed.

Lemma rmatch_spaces_split st st' :
  In st' (rmatch spaces st) ->
  exists ws, rest st = ws ++ rest st' /\ forallb is_space ws = true.
Proof. apply star_states_split. Qed.

Lemma rmatch_cls_split p st st' :
  In st' (rmatch (Cls p) st) -> exists c, rest st = c :: rest st' /\ p c = true.
Proof.
  simpl. destruct (rest st) as [|c t]; [contradiction|].
  destruct (p c) eqn:Hp; [|contradiction]. intros [<-|[]]. eauto.
Qed.

Lemma rmatch_grp_rest n r st st' :
  In st' (rmatch (Grp n r) st) -> exists x, In x (rmatch r st) /\ rest st' = rest x.
Proof. simpl. intros H. apply in_map_iff in H as (x & <- & Hx). eauto. Qed.

Lemma rmatch_bos_rest st st' : In st' (rmatch Bos st) -> rest st' = rest st.
Proof. simpl. destruct (prev st); [contradiction|]. by intros [<-|[]]. Qed.

Lemma rmatch_ident_split st st' :
  In st' (rmatch ident st) ->
  exists l w, rest st = l :: w ++ rest st' /\ is_letter l = true /\ forallb is_word w = true.
Proof.
  unfold ident. intros H. apply in_rmatch_cat in H as (x & Hx & H).
  apply rmatch_cls_split in Hx as (l & Hl & Hletter).
  apply star_states_split in H as (w & Hw & Hword).
  exists l, w. rewrite Hl, Hw. done.
Qed.

Lemma rmatch_lit_i_split (cs : text) :
  forall st st',
    In st' (rmatch (fold_right (fun c r => Cat (chr_i c) r) Eps cs) st) ->
    exists u, rest st = u ++ rest st' /\ map lower u = map lower cs.
Proof.
  induction cs as [|c cs IH]; intros st st' Hin; simpl in Hin.
  - destruct Hin as [<-|[]]. by exists [].
  - apply in_flat_map in Hin as (x & Hx & Hin).
    destruct (rest st) as [|d t] eqn:Hr; [contradiction|].
    case_bool_decide as Hd; [|contradiction]. destruct Hx as [<-|[]].
    apply IH in Hin as (u & Hu & Hlow). simpl in Hu.
    exists (d :: u). rewrite Hu. split; [done|]. simpl. by rewrite Hd, Hlow.
Qed.

Lemma rmatch_lit_i_first (c : ascii) (cs : text) st st' :
  In st' (rmatch (fold_right (fun c r => Cat (chr_i c) r) Eps (c :: cs)) st) ->
  exists t r, rest st = t :: r /\ lower t = lower c.
Proof.
  intros H. apply rmatch_lit_i_split in H as (u & Hu & Hlow).
  destruct u as [|t u]; [discriminate|]. simpl in Hlow. inversion Hlow.
  exists t, (u ++ rest st'). done.
Qed.

(** Two splits of a text at the first character outside a class agree. *)
Lemma span_unique (p : ascii -> bool) (a a' : text) c c' r r' :
  forallb p a = true -> p c = false ->
  forallb p a' = true -> p c' = false ->
  a ++ c :: r = a' ++ c' :: r' ->
  a = a' /\ c = c' /\ r = r'.
Proof.
  revert a'. induction a as [|x a IH]; intros [|x' a'] Ha Hc Ha' Hc' H; simpl in *.
  - by inversion H.
  - inversion H; subst. apply andb_prop in Ha' as [Hx _]. congruence.
  - inversion H; subst. apply andb_prop in Ha as [Hx _]. congruence.
  - inversion H; subst. apply andb_prop in Ha as [_ Ha]. apply andb_prop in Ha' as [_ Ha'].
    destruct (IH a' Ha Hc Ha' Hc' H2) as (-> & -> & ->). done.
Qed.

(** The lines that [RE_IF] matches: [if] in either case, white space,
    an opening parenthesis. *)
Lemma RE_IF_shape s m :
  rematch RE_IF s = Some m ->
  exists ws c1 c2 ws2 r,
    s = ws ++ c1 :: c2 :: ws2 ++ "("%char :: r /\
    forallb is_space ws = true /\ lower c1 = "i"%char /\ lower c2 = "f"%char /\
    forallb is_space ws2 = true.
Proof.
  intros H. apply head_In in H. unfold RE_IF, seq in H. cbn [fold_right] in H.
  apply in_rmatch_cat in H as (s0 & H0 & H). apply rmatch_bos_rest in H0.
  apply in_rmatch_cat in H as (s1 & H1 & H). apply rmatch_spaces_split in H1 as (ws & H1 & Hws).
  apply in_rmatch_cat in H as (s2 & H2 & H). apply rmatch_lit_i_split in H2 as (u & H2 & Hu).
  apply in_rmatch_cat in H as (s3 & H3 & H). apply rmatch_spaces_split in H3 as (ws2 & H3 & Hws2).
  apply in_rmatch_cat in H as (s4 & H4 & H). apply rmatch_cls_split in H4 as (c & H4 & Hc).
  apply bool_decide_eq_true in Hc as ->.
  destruct u as [|c1 [|c2 [|c3 u]]]; try discriminate. simpl in Hu. inversion Hu.
  exists ws, c1, c2, ws2, (rest s4).
  rewrite H0 in H1. simpl in H1. rewrite H1, H2, H3, H4. done.
Qed.

(** The lines that [RE_DECL] and [RE_ASSIGN] match begin with a name,
    white space, and a colon or an equals sign. *)
Lemma RE_DECL_shape s m :
  rematch RE_DECL s = Some m ->
  exists ws l w ws3 ws4 t r,
    s = ws ++ l :: w ++ ws3 ++ ":"%char :: ws4 ++ t :: r /\
    forallb is_space ws = true /\ is_letter l = true /\ forallb is_word w = true /\
    forallb is_space ws3 = true /\ forallb is_space ws4 = true /\ is_letter t = true.
Proof.
  intros H. apply head_In in H. unfold RE_DECL, seq in H. cbn [fold_right] in H.
  apply in_rmatch_cat in H as (s0 & H0 & H). apply rmatch_bos_rest in H0.
  apply in_rmatch_cat in H as (s1 & H1 & H). apply rmatch_spaces_split in H1 as (ws & H1 & Hws).
  apply in_rmatch_cat in H as (s2 & H2 & H). apply rmatch_grp_rest in H2 as (x2 & H2 & Hx2).
  apply rmatch_ident_split in H2 as (l & w & H2 & Hl & Hw).
  apply in_rmatch_cat in H as (s3 & H3 & H). apply rmatch_spaces_split in H3 as (ws3 & H3 & Hws3).
  apply in_rmatch_cat in H as (s4 & H4 & H). apply rmatch_cls_split in H4 as (c & H4 & Hc).
  apply bool_decide_eq_true in Hc as ->.
  apply in_rmatch_cat in H as (s5 & H5 & H). apply rmatch_spaces_split in H5 as (ws4 & H5 & Hws4).
  apply in_rmatch_cat in H as (s6 & H6 & _). apply rmatch_grp_rest in H6 as (x6 & H6 & Hx6).
  assert (Ht : exists t r, rest s5 = t :: r /\ is_letter t = true).
  { change (In x6 (rmatch (lit_i "integer") s5 ++ rmatch (lit_i "double") s5)) in H6.
    apply in_app_iff in H6 as [H6|H6]; apply rmatch_lit_i_first in H6 as (t & r & H6 & Ht);
      exists t, r; (split; [done|]); exact (lower_letter _ _ Ht eq_refl). }
  destruct Ht as (t & r & Ht & Hletter).
  exists ws, l, w, ws3, ws4, t, r.
  rewrite H0 in H1. simpl in H1. rewrite H1, H2, <- Hx2, H3, H4, H5, Ht. done.
Qed.

Lemma RE_ASSIGN_shape s m :
  rematch RE_ASSIGN s = Some m ->
  exists ws l w ws3 r,
    (s = ws ++ l :: w ++ ws3 ++ ":"%char :: "="%char :: r \/
     s = ws ++ l :: w ++ ws3 ++ "="%char :: r) /\
    forallb is_space ws = true /\ is_letter l = true /\ forallb is_word w = true /\
    forallb is_space ws3 = true.
Proof.
  intros H. apply head_In in H. unfold RE_ASSIGN, seq in H. cbn [fold_right] in H.
  apply in_rmatch_cat in H as (s0 & H0 & H). apply rmatch_bos_rest in H0.
  apply in_rmatch_cat in H as (s1 & H1 & H). apply rmatch_spaces_split in H1 as (ws & H1 & Hws).
  apply in_rmatch_cat in H as (s2 & H2 & H). apply rmatch_grp_rest in H2 as (x2 & H2 & Hx2).
  apply rmatch_ident_split in H2 as (l & w & H2 & Hl & Hw).
  apply in_rmatch_cat in H as (s3 & H3 & H). apply rmatch_spaces_split in H3 as (ws3 & H3 & Hws3).
  apply in_rmatch_cat in H as (s4 & H4 & _).
  change (In s4 (rmatch (lit ":=") s3 ++ rmatch (lit "=") s3)) in H4.
  exists ws, l, w, ws3, (rest s4).
  rewrite H0 in H1. simpl in H1. rewrite H1, H2, <- Hx2, H3.
  apply in_app_iff in H4 as [H4|H4]; apply rmatch_literal in H4; rewrite H4; simpl; auto.
Qed.

Lemma RE_OUTPUT_shape s m :
  rematch RE_OUTPUT s = Some m ->
  exists ws u ws2 r,
    s = ws ++ u ++ ws2 ++ "<"%char :: r /\
    forallb is_space ws = true /\ map lower u = T "output" /\ forallb is_space ws2 = true.
Proof.
  intros H. apply head_In in H. unfold RE_OUTPUT, seq in H. cbn [fold_right] in H.
  apply in_rmatch_cat in H as (s0 & H0 & H). apply rmatch_bos_rest in H0.
  apply in_rmatch_cat in H as (s1 & H1 & H). apply rmatch_spaces_split in H1 as (ws & H1 & Hws).
  apply in_rmatch_cat in H as (s2 & H2 & H). apply rmatch_lit_i_split in H2 as (u & H2 & Hu).
  apply in_rmatch_cat in H as (s3 & H3 & H). apply rmatch_spaces_split in H3 as (ws2 & H3 & Hws2).
  apply in_rmatch_cat in H as (s4 & H4 & _). apply rmatch_literal in H4.
  exists ws, u, ws2, ("<"%char :: rest s4).
  rewrite H0 in H1. simpl in H1. rewrite H1, H2, H3, H4. done.
Qed.

Lemma spaces_then (ws : text) (x : ascii) (r : text) :
  forallb is_space ws = true -> is_word x = false ->
  exists y r1, ws ++ x :: r = y :: r1 /\ is_word y = false.
Proof.
  destruct ws as [|c ws]; simpl; intros Hws Hx; [eauto|].
  apply andb_prop in Hws as [Hc _]. apply space_not_word in Hc. eauto.
Qed.

Lemma name_led_unique s x r x' r' :
  name_led s x r -> name_led s x' r' -> x = x' /\ r = r'.
Proof.
  intros (ws & l & w & ws3 & -> & Hws & Hl & Hw & Hws3 & Hx & Hxw)
         (ws' & l' & w' & ws3' & H & Hws' & Hl' & Hw' & Hws3' & Hx' & Hxw').
  apply span_unique with (p := is_space) in H as (_ & _ & H);
    try done; try by apply letter_not_space.
  destruct (spaces_then ws3 x r Hws3 Hxw) as (y & r1 & Hy & Hyw).
  destruct (spaces_then ws3' x' r' Hws3' Hxw') as (y' & r1' & Hy' & Hyw').
  assert (H2 : ws3 ++ x :: r = ws3' ++ x' :: r').
  { rewrite Hy, Hy' in H. rewrite Hy, Hy'.
    apply span_unique with (p := is_word) in H as (_ & -> & ->); done. }
  apply span_unique with (p := is_space) in H2 as (_ & -> & ->); done.
Qed.

Lemma RE_IF_name_led s m : rematch RE_IF s = Some m -> exists r, name_led s "("%char r.
Proof.
  intros H. apply RE_IF_shape in H as (ws & c1 & c2 & ws2 & r & -> & Hws & H1 & H2 & Hws2).
  exists r, ws, c1, [c2], ws2. simpl.
  assert (is_letter c1 = true) by (eapply (lower_letter c1 "i"%char); done).
  assert (is_letter c2 = true) by (eapply (lower_letter c2 "f"%char); done).
  rewrite (letter_is_word c2) by done. done.
Qed.

Lemma RE_DECL_name_led s m :
  rematch RE_DECL s = Some m ->
  exists ws4 t r, name_led s ":"%char (ws4 ++ t :: r)
                  /\ forallb is_space ws4 = true /\ is_letter t = true.
Proof.
  intros H.
  apply RE_DECL_shape in H as (ws & l & w & ws3 & ws4 & t & r & -> & Hws & Hl & Hw & Hws3 & Hws4 & Ht).
  exists ws4, t, r. split; [|done]. exists ws, l, w, ws3. done.
Qed.

Lemma RE_ASSIGN_name_led s m :
  rematch RE_ASSIGN s = Some m ->
  exists r, name_led s ":"%char ("="%char :: r) \/ name_led s "="%char r.
Proof.
  intros H. apply RE_ASSIGN_shape in H as (ws & l & w & ws3 & r & [-> | ->] & Hws & Hl & Hw & Hws3);
    exists r; [left|right]; exists ws, l, w, ws3; done.
Qed.

Lemma RE_OUTPUT_name_led s m : rematch RE_OUTPUT s = Some m -> exists r, name_led s "<"%char r.
Proof.
  intros H. apply RE_OUTPUT_shape in H as (ws & u & ws2 & r & -> & Hws & Hu & Hws2).
  destruct u as [|c1 [|c2 [|c3 [|c4 [|c5 [|c6 [|c7 u]]]]]]]; try discriminate.
  simpl in Hu. injection Hu as H1 H2 H3 H4 H5 H6.
  exists r, ws, c1, [c2; c3; c4; c5; c6], ws2. simpl.
  assert (is_letter c1 = true) by (eapply (lower_letter c1 "o"%char); done).
  assert (is_word c2 = true) by (apply letter_is_word; eapply (lower_letter c2 "u"%char); done).
  assert (is_word c3 = true) by (apply letter_is_word; eapply (lower_letter c3 "t"%char); done).
  assert (is_word c4 = true) by (apply letter_is_word; eapply (lower_letter c4 "p"%char); done).
  assert (is_word c5 = true) by (apply letter_is_word; eapply (lower_letter c5 "u"%char); done).
  assert (is_word c6 = true) by (apply letter_is_word; eapply (lower_letter c6 "t"%char); done).
  repeat match goal with H : is_word _ = true |- _ => rewrite H; clear H end.
  done.
Qed.

(** A line matches at most one of the four statement patterns. *)
Lemma RE_DECL_not_ASSIGN s m : rematch RE_DECL s = Some m -> rematch RE_ASSIGN s = None.
Proof.
  intros Hd. destruct (rematch RE_ASSIGN s) as [m'|] eqn:Ha; [exfalso|done].
  apply RE_DECL_name_led in Hd as (ws4 & t & r & Hd & Hws4 & Ht).
  apply RE_ASSIGN_name_led in Ha as (r' & [Ha|Ha]);
    destruct (name_led_unique _ _ _ _ _ Hd Ha) as [Hx Hr]; [|discriminate].
  destruct ws4 as [|c ws4]; simpl in Hr; inversion Hr; subst; discriminate.
Qed.

Lemma RE_OUTPUT_not_DECL s m : rematch RE_OUTPUT s = Some m -> rematch RE_DECL s = None.
Proof.
  intros Ho. destruct (rematch RE_DECL s) as [m'|] eqn:Hd; [exfalso|done].
  apply RE_OUTPUT_name_led in Ho as (r & Ho).
  apply RE_DECL_name_led in Hd as (ws4 & t & r' & Hd & _).
  destruct (name_led_unique _ _ _ _ _ Ho Hd) as [Hx _]. discriminate.
Qed.

Lemma RE_OUTPUT_not_ASSIGN s m : rematch RE_OUTPUT s = Some m -> rematch RE_ASSIGN s = None.
Proof.
  intros Ho. destruct (rematch RE_ASSIGN s) as [m'|] eqn:Ha; [exfalso|done].
  apply RE_OUTPUT_name_led in Ho as (r & Ho).
  apply RE_ASSIGN_name_led in Ha as (r' & [Ha|Ha]);
    destruct (name_led_unique _ _ _ _ _ Ho Ha) as [Hx _]; discriminate.
Qed.

Lemma RE_IF_not_DECL s m : rematch RE_IF s = Some m -> rematch RE_DECL s = None.
Proof.
  intros Hi. destruct (rematch RE_DECL s) as [m'|] eqn:Hd; [exfalso|done].
  apply RE_IF_name_led in Hi as (r & Hi).
  apply RE_DECL_name_led in Hd as (ws4 & t & r' & Hd & _).
  destruct (name_led_unique _ _ _ _ _ Hi Hd) as [Hx _]. discriminate.
Qed.

Lemma RE_IF_not_ASSIGN s m : rematch RE_IF s = Some m -> rematch RE_ASSIGN s = None.
Proof.
  intros Hi. destruct (rematch RE_ASSIGN s) as [m'|] eqn:Ha; [exfalso|done].
  apply RE_IF_name_led in Hi as (r & Hi).
  apply RE_ASSIGN_name_led in Ha as (r' & [Ha|Ha]);
    destruct (name_led_unique _ _ _ _ _ Hi Ha) as [Hx _]; discriminate.
Qed.

Lemma RE_IF_not_OUTPUT s m : rematch RE_IF s = Some m -> rematch RE_OUTPUT s = None.
Proof.
  intros Hi. destruct (rematch RE_OUTPUT s) as [m'|] eqn:Ho; [exfalso|done].
  apply RE_IF_name_led in Hi as (r & Hi).
  apply RE_OUTPUT_name_led in Ho as (r' & Ho).
  destruct (name_led_unique _ _ _ _ _ Hi Ho) as [Hx _]. discriminate.
Qed.

Lemma name_led_nonempty s x r : name_led s x r -> text_eqb s [] = false.
Proof.
  intros (ws & l & w & ws3 & -> & _). unfold text_eqb. apply bool_decide_eq_false.
  by destruct ws.
Qed.

(** ** Conditions *)

Lemma cond_ops_group st st' :
  In st' (rmatch (Grp 2 cond_ops) st) -> exists op, group 2 (caps st') = Some op /\ In op operators.
Proof.
  intros Hin. simpl in Hin. apply in_map_iff in Hin as (x & <- & Hx).
  simpl. eexists. split; [reflexivity|].
  unfold cond_ops in Hx.
  change (In x (rmatch (lit "==") st ++ rmatch (lit "!=") st
                  ++ rmatch (lit ">") st ++ rmatch (lit "<") st)) in Hx.
  rewrite !in_app_iff in Hx. unfold operators.
  destruct Hx as [H|[H|[H|H]]]; apply rmatch_literal in H;
    rewrite (consumed_prefix _ _ _ H); simpl; tauto.
Qed.

(** The operator that [RE_COND] captures is one of the four. *)
Lemma RE_COND_operator cond m :
  rematch RE_COND cond = Some m -> In (grp 2 m) operators.
Proof.
  unfold rematch. intros H.
  assert (Hin : In m (rmatch RE_COND (MState None cond []))).
  { destruct (rmatch RE_COND (MState None cond [])); [discriminate|].
    simpl in H. inversion H. by left. }
  clear H. unfold RE_COND, seq in Hin. cbn [fold_right] in Hin.
  apply in_rmatch_cat in Hin as (s1 & _ & Hin).
  apply in_rmatch_cat in Hin as (s2 & _ & Hin).
  apply in_rmatch_cat in Hin as (s3 & _ & Hin).
  apply in_rmatch_cat in Hin as (s4 & _ & Hin).
  apply in_rmatch_cat in Hin as (s5 & H5 & Hin).
  apply cond_ops_group in H5 as (op & Hop & Hmem).
  apply rmatch_frame with (n := 2%nat) in Hin.
  - unfold grp. by rewrite Hin, Hop.
  - simpl. intros [H|[]]. discriminate.
Qed.

(** A condition that evaluates leaves the state as it was. *)
Lemma eval_condition_ok st cond i st1 b :
  eval_condition st cond i = (st1, Some b) -> st1 = st.
Proof.
  unfold eval_condition.
  destruct (rematch RE_COND cond) as [m|]; [|discriminate].
  destruct (eval_expr st (strip (grp 1 m)) i) as [st' [lv|]] eqn:Hl; [|discriminate].
  apply eval_expr_ok in Hl as ->.
  destruct (eval_expr st (strip (grp 3 m)) i) as [st'' [rv|]] eqn:Hr; [|discriminate].
  apply eval_expr_ok in Hr as ->.
  intros H. destruct_matches H; by simplify_eq.
Qed.

(** The four ways in which [eval_condition] ends. *)
Lemma eval_condition_cases (st : interp) (cond : text) (i : nat) :
  (exists b, eval_condition st cond i = (st, Some b)) \/
  eval_condition st cond i = (error st (InvalidCondition cond) (Some i), None) \/
  (exists m side st1,
      rematch RE_COND cond = Some m /\
      (side = strip (grp 1 m) \/ side = strip (grp 3 m)) /\
      eval_expr st side i = (st1, None) /\
      eval_condition st cond i = (st1, None)) \/
  (exists e, eval_condition st cond i = (error st (ConditionError e) (Some i), None)).
Proof.
  unfold eval_condition.
  destruct (rematch RE_COND cond) as [m|] eqn:Hm; [|right; left; reflexivity].
  pose proof (RE_COND_operator _ _ Hm) as Hop.
  destruct (eval_expr st (strip (grp 1 m)) i) as [st1 [lv|]] eqn:Hl.
  2:{ right; right; left. exists m, (strip (grp 1 m)), st1. auto. }
  apply eval_expr_ok in Hl as ->.
  destruct (eval_expr st (strip (grp 3 m)) i) as [st2 [rv|]] eqn:Hr.
  2:{ right; right; left. exists m, (strip (grp 3 m)), st2. auto. }
  apply eval_expr_ok in Hr as ->.
  unfold operators in Hop. simpl in Hop.
  destruct Hop as [<-|[<-|[<-|[<-|[]]]]]; simpl.
  - left. eauto.
  - left. eauto.
  - destruct (py_gt lv rv) as [b|e]; simpl; [left|right; right; right]; eauto.
  - destruct (py_lt lv rv) as [b|e]; simpl; [left|right; right; right]; eauto.
Qed.

(** ** The line loop: which block handles a line *)

Lemma process_line_conditional st i raw_line m :
  conditional_line raw_line m ->
  process_line st i raw_line = conditional st (strip (grp 1 m)) (strip (grp 2 m)) i.
Proof.
  unfold conditional_line. intros Hi. unfold process_line.
  destruct (RE_IF_name_led _ _ Hi) as [r Hled].
  rewrite (name_led_nonempty _ _ _ Hled).
  by rewrite (RE_IF_not_DECL _ _ Hi), (RE_IF_not_ASSIGN _ _ Hi), (RE_IF_not_OUTPUT _ _ Hi), Hi.
Qed.

Lemma process_line_taken st i raw_line stmt :
  taken_conditional st i raw_line stmt ->
  process_line st i raw_line
  = match rematch RE_ASSIGN stmt with
    | Some m2 => assign true st (grp 1 m2) (strip (grp 2 m2)) i
    | None =>
        match rematch RE_OUTPUT stmt with
        | Some m2 => output st (strip (grp 1 m2)) i
        | None => Done (error st UnsupportedInIf (Some i))
        end
    end.
Proof.
  intros (m & Hm & Hc & -> & Hsemi).
  rewrite (process_line_conditional _ _ _ _ Hm). unfold conditional.
  by rewrite Hc, Hsemi.
Qed.

Lemma process_line_assignment st i raw_line name expr :
  assignment_line st i raw_line name expr ->
  exists in_if, process_line st i raw_line = assign in_if st name expr i.
Proof.
  intros [(m & Ha & -> & ->)|(stmt & m2 & Ht & Ha & -> & ->)].
  - exists false. unfold process_line.
    assert (Hne : text_eqb (strip raw_line) [] = false).
    { destruct (RE_ASSIGN_name_led _ _ Ha) as (r & [H|H]); by eapply name_led_nonempty. }
    rewrite Hne.
    destruct (rematch RE_DECL (strip raw_line)) as [md|] eqn:Hd.
    { rewrite (RE_DECL_not_ASSIGN _ _ Hd) in Ha. discriminate. }
    by rewrite Ha.
  - exists true. rewrite (process_line_taken _ _ _ _ Ht). by rewrite Ha.
Qed.

Lemma process_line_output st i raw_line payload :
  output_line st i raw_line payload ->
  process_line st i raw_line = output st payload i.
Proof.
  intros [(m & Ho & ->)|(stmt & m2 & Ht & Ho & ->)].
  - unfold process_line.
    destruct (RE_OUTPUT_name_led _ _ Ho) as [r Hled].
    rewrite (name_led_nonempty _ _ _ Hled).
    by rewrite (RE_OUTPUT_not_DECL _ _ Ho), (RE_OUTPUT_not_ASSIGN _ _ Ho), Ho.
  - rewrite (process_line_taken _ _ _ _ Ht).
    by rewrite (RE_OUTPUT_not_ASSIGN _ _ Ho), Ho.
Qed.

(** ** End-to-end scenario *)

(** C2. The program of scenario B, [y: double;] then
    [if (1 < 2) y := 10 - 3;] then [output << y;], runs to its end,
    its output sequence is exactly ["7"] and its diagnostics sequence
    is empty. The lines are separated by a line feed, with and without
    one after the last line. *)
Theorem scenario_B_output :
  let src := T "y: double;" ++ nl ++ T "if (1 < 2) y := 10 - 3;" ++ nl ++ T "output << y;" in
  (exists st, run src = Done st /\ outputs st = [T "7"] /\ errors st = []) /\
  (exists st, run (src ++ nl) = Done st /\ outputs st = [T "7"] /\ errors st = []).
Proof.
  split; eexists; (split; [vm_compute; reflexivity | split; reflexivity]).
Qed.

(** ** Illegal characters *)

(** C8. An expression text that holds a character outside letters,
    digits, [.], [+], [-], parentheses and white space, in particular a
    [*] or a [/], is rejected by [eval_expr]: there is no result, the one
    diagnostic recorded is the illegal-character one for that text on
    that line, and the variables and the outputs are unchanged. *)
Theorem illegal_character_rejected (st : interp) (expr : text) (lineno : nat) (c : ascii) :
  In c expr ->
  expr_char c = false \/ c = "*"%char \/ c = "/"%char ->
  eval_expr st expr lineno = (error st (IllegalCharacter expr) (Some lineno), None) /\
  vars (fst (eval_expr st expr lineno)) = vars st /\
  outputs (fst (eval_expr st expr lineno)) = outputs st /\
  errors (fst (eval_expr st expr lineno))
    = errors st ++ [Diag (Some lineno) (IllegalCharacter expr)].
Proof.
  intros Hin Hc.
  assert (Hbad : expr_char c = false).
  { destruct Hc as [H|[H|H]]; [exact H|rewrite H; reflexivity..]. }
  assert (He : existsb (fun c => negb (expr_char c)) expr = true).
  { apply existsb_exists. exists c. split; [done|]. by rewrite Hbad. }
  unfold eval_expr. rewrite He. simpl. done.
Qed.

Lemma illegal_character_rejected_witness :
  eval_expr (Interpreter []) (T "2 * 3") 1
    = (error (Interpreter []) (IllegalCharacter (T "2 * 3")) (Some 1%nat), None) /\
  vars (fst (eval_expr (Interpreter []) (T "2 * 3") 1)) = vars (Interpreter []) /\
  outputs (fst (eval_expr (Interpreter []) (T "2 * 3") 1)) = outputs (Interpreter []) /\
  errors (fst (eval_expr (Interpreter []) (T "2 * 3") 1))
    = errors (Interpreter []) ++ [Diag (Some 1%nat) (IllegalCharacter (T "2 * 3"))].
Proof.
  apply (illegal_character_rejected (Interpreter []) (T "2 * 3") 1 "*"%char).
  - simpl. right. right. left. reflexivity.
  - right. left. reflexivity.
Defined.

(** ** Conditionals whose condition is false *)

(** C7. A conditional line, one that [RE_IF] matches, whose condition
    evaluates to false is left at once: the loop body ends normally and
    the state after the line, variables, outputs and diagnostics alike,
    is the state before it, whatever the inner statement is (it is not
    looked at, so a missing semicolon or an unsupported form goes
    unnoticed). *)
Theorem false_condition_no_effect (st st1 : interp) (i : nat) (raw_line : text) (m : mstate) :
  conditional_line raw_line m ->
  eval_condition st (strip (grp 1 m)) i = (st1, Some false) ->
  process_line st i raw_line = Done st1 /\ st1 = st.
Proof.
  intros Hline Hc.
  split; [|by eapply eval_condition_ok].
  rewrite (process_line_conditional _ _ _ _ Hline). unfold conditional. by rewrite Hc.
Qed.

Lemma false_condition_no_effect_witness :
  process_line (Interpreter []) 1 (T "if (1 == 2) garbage") = Done (Interpreter []) /\
  Interpreter [] = Interpreter [].
Proof.
  apply (false_condition_no_effect (Interpreter []) (Interpreter []) 1 (T "if (1 == 2) garbage")
           (MState (Some "e"%char) []
              [(2%nat, T "garbage"); (1%nat, T "1 == 2")])).
  - vm_compute. reflexivity.
  - vm_compute. reflexivity.
Defined.

(** ** The outcomes of a condition *)

(** C10 (as amended). The operator captured by the condition pattern
    is one of [==], [!=], [>], [<], so [eval_condition] never records
    the unsupported-operator diagnostic. A condition yields a boolean
    and leaves the state unchanged, or records the invalid-format
    diagnostic, or fails as the evaluation of one of its two sides
    fails, or records the diagnostic of a comparison that raised (the
    two sides evaluated, and their values cannot be ordered). *)
Theorem condition_outcomes (st : interp) (cond : text) (i : nat) :
  match rematch RE_COND cond with
  | Some m => In (grp 2 m) operators
  | None => True
  end /\
  (forall op, eval_condition st cond i <> (error st (UnsupportedOperator op) (Some i), None)) /\
  ((exists b, eval_condition st cond i = (st, Some b)) \/
   eval_condition st cond i = (error st (InvalidCondition cond) (Some i), None) \/
   (exists m side st1,
       rematch RE_COND cond = Some m /\
       (side = strip (grp 1 m) \/ side = strip (grp 3 m)) /\
       eval_expr st side i = (st1, None) /\
       eval_condition st cond i = (st1, None)) \/
   (exists e, eval_condition st cond i = (error st (ConditionError e) (Some i), None))).
Proof.
  split.
  { destruct (rematch RE_COND cond) as [m|] eqn:Hm; [|exact I]. exact (RE_COND_operator cond m Hm). }
  pose proof (eval_condition_cases st cond i) as Hmain.
  split; [|exact Hmain].
  intros op Hu.
  destruct Hmain as [(b & H)|[H|[(m & side & st1 & _ & _ & Hs & H)|(e & H)]]];
    rewrite H in Hu.
  - discriminate.
  - inversion Hu as [He]. apply app_inj_tail in He as [_ He]. discriminate.
  - inversion Hu; subst. apply eval_expr_fail in Hs as [Hs|(msg' & Hs & Hmsg)].
    + apply (f_equal errors) in Hs. simpl in Hs.
      apply (f_equal (@length diag)) in Hs. rewrite length_app in Hs. simpl in Hs. lia.
    + apply (f_equal errors) in Hs. simpl in Hs.
      apply app_inj_tail in Hs as [_ Hs]. inversion Hs; subst. exact Hmsg.
  - inversion Hu as [He]. apply app_inj_tail in He as [_ He]. discriminate.
Qed.

(** C10, the claim as stated fails. The condition [... < 1] matches the
    pattern and both sides evaluate (to the ellipsis object and to 1),
    but the comparison raises [TypeError], which [eval_condition]
    reports with its own diagnostic: the outcome is none of the three
    listed. The line [if (... < 1) output << 1;] reaches it. *)
Lemma condition_outcomes_listed_incomplete :
  ~ listed_outcome (Interpreter []) (T "... < 1") 1 /\
  eval_condition (Interpreter []) (T "... < 1") 1
    = (error (Interpreter []) (ConditionError TypeError) (Some 1%nat), None) /\
  errors (final (run (T "if (... < 1) output << 1;")))
    = [Diag (Some 1%nat) (ConditionError TypeError)].
Proof.
  split; [|split; vm_compute; reflexivity].
  intros [(b & H)|[H|(m & side & st1 & Hm & Hside & Hs & _)]].
  - vm_compute in H. discriminate.
  - vm_compute in H. discriminate.
  - vm_compute in Hm. inversion Hm; subst m. clear Hm.
    destruct Hside as [-> | ->]; vm_compute in Hs; discriminate.
Qed.

(** ** Independence of runs *)




(** By contrast the state of one object is kept between two calls of
    [parse_and_run] on it: the second call finds the variables of the
    first. *)
Example same_object_twice :
  let st := final (run (T "x: integer;")) in
  errors st = [] /\
  errors (final (parse_and_run st)) = [Diag (Some 1%nat) (Redeclared (T "x"))].
Proof. split; vm_compute; reflexivity. Qed.

(** ** Assignment to an Integer variable *)

Lemma ratio_of_pos f : 0 <= fst (ratio_of f) /\ 0 < snd (ratio_of f).
Proof.
  destruct f as [s|s| |s m e]; simpl; try lia.
  destruct e as [|p|p]; simpl; lia.
Qed.

Lemma round_half_even_nearest n d :
  0 <= n -> 0 < d -> nearest_ties_even n d (round_half_even n d).
Proof.
  intros Hn Hd. unfold nearest_ties_even, round_half_even.
  pose proof (Z.div_mod n d ltac:(lia)) as Hdm.
  pose proof (Z.mod_pos_bound n d Hd) as Hr.
  pose proof (Z.div_pos n d Hn Hd) as Hq.
  set (q := n / d) in *. set (r := n mod d) in *.
  destruct (Z.compare_spec (2 * r) d) as [He|Hl|Hg].
  - destruct (Z.even q) eqn:Hev.
    + repeat split; [lia|lia|done].
    + repeat split; [lia|lia|].
      intros _. rewrite Z.even_add, Hev. reflexivity.
  - repeat split; [lia|lia|lia].
  - repeat split; [lia|lia|lia].
Qed.

Lemma py_round_rounds f z : py_round f = Some z -> rounds_to f z.
Proof.
  pose proof (ratio_of_pos f) as [Hn Hd].
  unfold py_round, rounds_to.
  destruct f as [s|s| |s m e]; intros H; try discriminate.
  - inversion H. exists 0. split; [by destruct s|].
    unfold nearest_ties_even. simpl. lia.
  - destruct (ratio_of (S754_finite s m e)) as [n d].
    inversion H. eexists. split; [reflexivity|].
    by apply round_half_even_nearest.
Qed.

(** C1 (as amended). An assignment, at top level or inside a
    conditional, to a variable declared Integer, whose expression
    evaluates to a number with a finite binary64 value [f], stores the
    integer nearest to [f], and the even one of the two when [f] lies
    half-way: Python's [round]. *)
Theorem integer_assignment_rounds_half_even
    (st : interp) (i : nat) (raw_line name expr : text)
    (old : option value) (val : value) (f : float) :
  assignment_line st i raw_line name expr ->
  vars st !! name = Some (T "integer", old) ->
  eval_expr st expr i = (st, Some val) ->
  py_float val = Ok f ->
  is_finite f = true ->
  exists z, process_line st i raw_line = Done (set_var st name (T "integer") (Some (VInt z)))
            /\ rounds_to f z.
Proof.
  intros Hline Hvar Hev Hf Hfin.
  apply process_line_assignment in Hline as [in_if ->].
  unfold assign. rewrite Hvar, Hev. simpl. rewrite Hf. simpl.
  unfold py_round_float.
  destruct (py_round f) as [z|] eqn:Hz.
  - exists z. split; [reflexivity|]. by apply py_round_rounds.
  - unfold py_round in Hz. destruct f as [s|s| |s m e]; try discriminate.
    destruct (ratio_of (S754_finite s m e)); discriminate.
Qed.

Lemma integer_assignment_rounds_half_even_witness :
  exists z, process_line x_integer 2 (T "x := 2.5;")
              = Done (set_var x_integer (T "x") (T "integer") (Some (VInt z)))
            /\ rounds_to two_and_a_half z.
Proof.
  apply (integer_assignment_rounds_half_even x_integer 2 (T "x := 2.5;") (T "x") (T "2.5")
           None (VFloat two_and_a_half) two_and_a_half).
  - left. eexists. split; [vm_compute; reflexivity|]. split; vm_compute; reflexivity.
  - vm_compute. reflexivity.
  - vm_compute. reflexivity.
  - reflexivity.
  - reflexivity.
Defined.

(** C1, the claim as stated fails. Ties are not rounded away from
    zero: the expression [2.5] evaluates to the float 2.5, and assigning
    it to an Integer variable stores 2, where rounding half away from
    zero gives 3; assigning -2.5 stores -2, not -3; 3.5 is stored as 4.
    The same holds inside a conditional. Nor is the stored value always
    the whole number nearest to the result: the integer 2^53 + 1 goes
    through [float] and is stored as 2^53, and an integer beyond the
    range of binary64 is not stored at all (the conversion is
    reported). *)
Lemma integer_assignment_not_half_away :
  eval_expr x_integer (T "2.5") 2 = (x_integer, Some (VFloat two_and_a_half)) /\
  stored (run (program ["x: integer;"; "x := 2.5;"])) "x" = Some (VInt 2) /\
  stored (run (program ["x: integer;"; "x := 2.5;"])) "x"
    <> Some (VInt (spec_round two_and_a_half)) /\
  spec_round two_and_a_half = 3 /\
  stored (run (program ["x: integer;"; "x := -2.5;"])) "x" = Some (VInt (-2)) /\
  spec_round (SFopp two_and_a_half) = -3 /\
  stored (run (program ["x: integer;"; "x := 3.5;"])) "x" = Some (VInt 4) /\
  stored (run (program ["x: integer;"; "if (1 < 2) x := 2.5;"])) "x" = Some (VInt 2) /\
  stored (run (program ["x: integer;"; "x := 9007199254740993;"])) "x"
    = Some (VInt 9007199254740992) /\
  errors (final (run (T "x: integer;" ++ nl ++ T "x := 1" ++ zeros 309 ++ T ";")))
    = [Diag (Some 2%nat) (CannotConvert (T "x"))].
Proof. repeat split; try (vm_compute; reflexivity). vm_compute. discriminate. Qed.

(** ** The texts of an output statement *)















(** ** Variables without a value *)

(** [re_sub] fails exactly on the first occurrence whose replacement
    fails. *)
Lemma re_sub_from_first_failure {E : Type} (r : regex) (repl : text -> E + text) s :
  forall pr skip,
    match re_sub_from r repl pr s skip with
    | inl e => first_failure repl (re_findall_from r pr s skip) = Some e
    | inr _ => first_failure repl (re_findall_from r pr s skip) = None
    end.
Proof.
  induction s as [|c t IH]; intros pr skip; simpl; [reflexivity|].
  destruct skip as [|k]; [|apply IH].
  destruct (head (rmatch r (MState pr (c :: t) []))) as [m|].
  - destruct (consumed (MState pr (c :: t) []) m) as [|a w].
    + specialize (IH (Some c) O). by destruct (re_sub_from r repl (Some c) t 0).
    + simpl. destruct (repl (a :: w)) as [e|v]; [reflexivity|].
      specialize (IH (Some c) (length w - 0)%nat).
      by destruct (re_sub_from r repl (Some c) t (length w - 0)).
  - specialize (IH (Some c) O). by destruct (re_sub_from r repl (Some c) t 0).
Qed.

Lemma first_failure_var_repl vs ws m :
  first_failure (var_repl vs) ws = Some m ->
  exists pre n post,
    ws = pre ++ n :: post /\ all_assigned vs pre /\
    ((exists ty, vs !! n = Some (ty, None) /\ m = UsedBeforeAssignment n) \/
     (vs !! n = None /\ m = UndeclaredInExpression n)).
Proof.
  induction ws as [|w ws IH]; simpl; [discriminate|].
  unfold var_repl at 1.
  destruct (vs !! w) as [[ty [v|]]|] eqn:Hw.
  - intros H. destruct (IH H) as (pre & n & post & -> & Hpre & Hn).
    exists (w :: pre), n, post. split; [reflexivity|]. split; [|exact Hn].
    intros k [<-|Hk]; [eauto|by apply Hpre].
  - intros H. inversion H. exists [], w, ws. split; [reflexivity|].
    split; [intros k []|]. left. eauto.
  - intros H. inversion H. exists [], w, ws. split; [reflexivity|].
    split; [intros k []|]. by right.
Qed.

Lemma first_failure_unset vs ws name ty :
  In name ws -> vs !! name = Some (ty, None) -> first_failure (var_repl vs) ws <> None.
Proof.
  induction ws as [|w ws IH]; simpl; [tauto|].
  intros [->|Hin] Hv.
  - unfold var_repl. by rewrite Hv.
  - destruct (var_repl vs w); [discriminate|by apply IH].
Qed.

(** C5 (as amended). If an identifier occurrence of an expression names
    a declared variable without a value, [eval_expr] fails: it returns
    no result (no default value stands in), changes nothing but the
    diagnostics and records exactly one, that of the first check that
    fails. It is the illegal-character diagnostic if the text has an
    illegal character; otherwise it is that of the first identifier
    occurrence, from the left, whose lookup fails, used-before-assignment
    if that variable is declared and unset, undeclared-variable if it is
    not declared. *)
Theorem unset_variable_fails (st : interp) (expr : text) (lineno : nat) (name typ : text) :
  In name (names_of expr) ->
  vars st !! name = Some (typ, None) ->
  exists m,
    eval_expr st expr lineno = (error st m (Some lineno), None) /\
    ((existsb (fun c => negb (expr_char c)) expr = true /\ m = IllegalCharacter expr) \/
     (existsb (fun c => negb (expr_char c)) expr = false /\
      exists pre n post,
        names_of expr = pre ++ n :: post /\ all_assigned (vars st) pre /\
        ((exists ty, vars st !! n = Some (ty, None) /\ m = UsedBeforeAssignment n) \/
         (vars st !! n = None /\ m = UndeclaredInExpression n)))).
Proof.
  intros Hin Hv. unfold eval_expr.
  destruct (existsb _ expr) eqn:Hill.
  { eexists. split; [reflexivity|]. by left. }
  pose proof (re_sub_from_first_failure RE_NAME (var_repl (vars st)) expr None O) as Hs.
  fold (re_sub RE_NAME (var_repl (vars st)) expr) in Hs.
  fold (re_findall RE_NAME expr) in Hs. fold (names_of expr) in Hs.
  destruct (re_sub RE_NAME (var_repl (vars st)) expr) as [m|expr_sub].
  - exists m. split; [reflexivity|]. right. split; [reflexivity|].
    by apply first_failure_var_repl.
  - exfalso. by eapply first_failure_unset.
Qed.

Lemma unset_variable_fails_witness :
  exists m,
    eval_expr x_integer (T "1 + x") 2 = (error x_integer m (Some 2%nat), None) /\
    ((existsb (fun c => negb (expr_char c)) (T "1 + x") = true /\ m = IllegalCharacter (T "1 + x")) \/
     (existsb (fun c => negb (expr_char c)) (T "1 + x") = false /\
      exists pre n post,
        names_of (T "1 + x") = pre ++ n :: post /\ all_assigned (vars x_integer) pre /\
        ((exists ty, vars x_integer !! n = Some (ty, None) /\ m = UsedBeforeAssignment n) \/
         (vars x_integer !! n = None /\ m = UndeclaredInExpression n)))).
Proof.
  apply (unset_variable_fails x_integer (T "1 + x") 2 (T "x") (T "integer")).
  - vm_compute. left. reflexivity.
  - vm_compute. reflexivity.
Defined.

(** C5, the claim as stated fails. With [x] declared and unset, the
    expression [y + x] refers to [x], but the diagnostic is the one of
    the undeclared [y], which is looked up first; and [x * 2] is
    rejected for its [*] before any lookup. In both cases there is no
    used-before-assignment diagnostic. *)
Lemma unset_variable_other_diagnostic :
  In (T "x") (names_of (T "y + x")) /\
  vars x_integer !! T "x" = Some (T "integer", None) /\
  eval_expr x_integer (T "y + x") 2
    = (error x_integer (UndeclaredInExpression (T "y")) (Some 2%nat), None) /\
  ~ unset_reported x_integer (T "y + x") 2 /\
  In (T "x") (names_of (T "x * 2")) /\
  eval_expr x_integer (T "x * 2") 2
    = (error x_integer (IllegalCharacter (T "x * 2")) (Some 2%nat), None) /\
  ~ unset_reported x_integer (T "x * 2") 2 /\
  errors (final (run (program ["x: integer;"; "output << y + x;"])))
    = [Diag (Some 2%nat) (UndeclaredInExpression (T "y"))].
Proof.
  assert (H1 : eval_expr x_integer (T "y + x") 2
    = (error x_integer (UndeclaredInExpression (T "y")) (Some 2%nat), None))
    by (vm_compute; reflexivity).
  assert (H2 : eval_expr x_integer (T "x * 2") 2
    = (error x_integer (IllegalCharacter (T "x * 2")) (Some 2%nat), None))
    by (vm_compute; reflexivity).
  split; [vm_compute; tauto|].
  split; [vm_compute; reflexivity|].
  split; [exact H1|].
  split.
  { intros [n Hn]. rewrite H1 in Hn. vm_compute in Hn. discriminate. }
  split; [vm_compute; tauto|].
  split; [exact H2|].
  split.
  { intros [n Hn]. rewrite H2 in Hn. vm_compute in Hn. discriminate. }
  vm_compute. reflexivity.
Qed.

(** ** The effect of one line *)

Lemma failed_with_weaken (P Q : message -> Prop) st i st1 :
  (forall m, P m -> Q m) -> failed_with P st i st1 -> failed_with Q st i st1.
Proof. intros HPQ [->|(m & Hm & ->)]; [by left|right; eauto]. Qed.

Lemma expr_statement_message m : expr_message m -> statement_message m.
Proof. by destruct m. Qed.

Lemma eval_expr_failed_with st expr i st1 r :
  eval_expr st expr i = (st1, r) -> failed_with statement_message st i st1.
Proof.
  destruct r as [v|]; intros H.
  - apply eval_expr_ok in H as ->. by left.
  - apply eval_expr_fail in H as [->|(m & -> & Hm)]; [by left|].
    right. exists m. split; [by apply expr_statement_message|done].
Qed.

Lemma eval_condition_failed_with st cond i st1 r :
  eval_condition st cond i = (st1, r) -> failed_with statement_message st i st1.
Proof.
  destruct (eval_condition_cases st cond i)
    as [(b & H)|[H|[(m & side & st2 & _ & _ & Hs & H)|(e & H)]]];
    rewrite H; intros Heq; inversion Heq; subst.
  - by left.
  - right. eexists. split; [|reflexivity]. exact I.
  - by eapply eval_expr_failed_with.
  - right. eexists. split; [|reflexivity]. exact I.
Qed.

Lemma assign_effect in_if st name expr i :
  failed_with statement_message st i (final (assign in_if st name expr i)) \/
  exists typ old val,
    vars st !! name = Some (typ, old) /\
    final (assign in_if st name expr i) = set_var st name typ (Some val).
Proof.
  unfold assign.
  destruct (vars st !! name) as [[typ old]|] eqn:Hv.
  2:{ left. right. simpl. eexists. split; [|reflexivity]. by destruct in_if. }
  destruct (eval_expr st expr i) as [st1 [val|]] eqn:He.
  - apply eval_expr_ok in He as ->.
    destruct (text_eqb typ (T "integer")).
    + destruct (f ← py_float val; py_round_float f); simpl.
      * right. eauto.
      * left. right. eexists. split; [|reflexivity]. exact I.
    + destruct (py_float val); simpl; [right; eauto|left; by left].
  - left. by eapply eval_expr_failed_with.
Qed.

Lemma output_effect st payload i :
  failed_with statement_message st i (final (output st payload i)) \/
  exists s, final (output st payload i) = append_output st s.
Proof.
  unfold output. destruct (quoted payload); [right; simpl; eauto|].
  destruct (eval_expr st payload i) as [st1 [val|]] eqn:He.
  - apply eval_expr_ok in He as ->. right. simpl. eauto.
  - left. by eapply eval_expr_failed_with.
Qed.

Lemma process_line_effect st i raw_line :
  line_effect st i raw_line (final (process_line st i raw_line)).
Proof.
  unfold line_effect, process_line, declaration.
  destruct (text_eqb (strip raw_line) []); [left; by left|].
  destruct (rematch RE_DECL (strip raw_line)) as [m|].
  { right; right; right. exists (grp 1 m), (map lower (grp 2 m)). split; [done|].
    destruct (vars st !! grp 1 m) eqn:Hv; simpl; [right|left]; eauto. }
  destruct (rematch RE_ASSIGN (strip raw_line)) as [m|].
  { destruct (assign_effect false st (grp 1 m) (strip (grp 2 m)) i) as [H|H]; [by left|].
    right; left. destruct H as (typ & old & val & H1 & H2). eauto 6. }
  destruct (rematch RE_OUTPUT (strip raw_line)) as [m|].
  { destruct (output_effect st (strip (grp 1 m)) i) as [H|H]; [by left|]. right; right; by left. }
  destruct (rematch RE_IF (strip raw_line)) as [m|].
  2:{ left; right. simpl. eexists. split; [|reflexivity]. exact I. }
  unfold conditional.
  destruct (eval_condition st (strip (grp 1 m)) i) as [st1 [[|]|]] eqn:Hc;
    try (left; simpl; by eapply eval_condition_failed_with).
  apply eval_condition_ok in Hc as ->.
  destruct (negb (ends_with_semicolon (strip (grp 2 m)))).
  { left; right. simpl. eexists. split; [|reflexivity]. exact I. }
  destruct (rematch RE_ASSIGN (strip (grp 2 m))) as [m2|].
  { destruct (assign_effect true st (grp 1 m2) (strip (grp 2 m2)) i) as [H|H]; [by left|].
    right; left. destruct H as (typ & old & val & H1 & H2). eauto 6. }
  destruct (rematch RE_OUTPUT (strip (grp 2 m))) as [m2|].
  { destruct (output_effect st (strip (grp 1 m2)) i) as [H|H]; [by left|]. right; right; by left. }
  left; right. simpl. eexists. split; [|reflexivity]. exact I.
Qed.

(** ** One diagnostic per line *)

Lemma line_effect_errors st i raw_line st1 :
  line_effect st i raw_line st1 ->
  errors st1 = errors st \/ exists m, errors st1 = errors st ++ [Diag (Some i) m].
Proof.
  intros [[->|(m & _ & ->)]|[(n & typ & old & val & _ & ->)|[(s & ->)
         |(n & typ & _ & [(_ & ->)|(_ & ->)])]]]; simpl; eauto.
Qed.

Lemma run_lines_errors lines :
  forall st i,
  exists ds,
    errors (final (run_lines st i lines)) = errors st ++ ds /\
    (forall n, (length (List.filter (on_line n) ds) <= 1)%nat) /\
    (forall d, In d ds -> exists k, line d = Some k /\ (i <= k)%nat).
Proof.
  induction lines as [|l lines IH]; intros st i; simpl.
  { exists []. rewrite app_nil_r. split; [done|]. split; [simpl; lia|intros d []]. }
  pose proof (line_effect_errors _ _ _ _ (process_line_effect st i l)) as H1.
  destruct (process_line st i l) as [st1|e st1]; simpl in H1.
  - destruct (IH st1 (S i)) as (ds & Hds & Hone & Hge).
    destruct H1 as [H1|[m H1]].
    + exists ds. rewrite Hds, H1. split; [done|]. split; [done|].
      intros d Hd. destruct (Hge d Hd) as (k & Hk & Hle). exists k. split; [done|lia].
    + exists (Diag (Some i) m :: ds). rewrite Hds, H1, <- app_assoc. split; [done|].
      split.
      * intros n. simpl. unfold on_line at 1. simpl.
        destruct (Nat.eqb_spec i n) as [->|Hn]; [|apply Hone].
        assert (Hnil : List.filter (on_line n) ds = []).
        { destruct (List.filter (on_line n) ds) as [|d l'] eqn:Hf; [done|].
          assert (Hd : In d (List.filter (on_line n) ds)) by (rewrite Hf; by left).
          apply filter_In in Hd as [Hd Hon].
          destruct (Hge d Hd) as (k & Hk & Hle). unfold on_line in Hon. rewrite Hk in Hon.
          apply Nat.eqb_eq in Hon. lia. }
        rewrite Hnil. simpl. lia.
      * intros d [<-|Hd]; [exists i; simpl; split; [done|lia]|].
        destruct (Hge d Hd) as (k & Hk & Hle). exists k. split; [done|lia].
  - destruct H1 as [H1|[m H1]].
    + exists []. rewrite app_nil_r. simpl. split; [done|]. split; [simpl; lia|intros d []].
    + exists [Diag (Some i) m]. simpl. split; [done|]. split.
      * intros n. simpl. destruct (on_line n _); simpl; lia.
      * intros d [<-|[]]. exists i. simpl. split; [done|lia].
Qed.

(** The part of C3 that holds for every source text: a run records at
    most one diagnostic for a line number. *)
Lemma one_diagnostic_per_line (src : text) (n : nat) :
  (length (List.filter (on_line n) (errors (final (run src)))) <= 1)%nat.
Proof.
  unfold run, parse_and_run.
  destruct (run_lines_errors (source_lines (Interpreter src)) (Interpreter src) 1)
    as (ds & Hds & Hone & _).
  rewrite Hds. simpl. apply Hone.
Qed.

(** C3, a run that does not process every line. The assignment of the
    empty tuple [()] to a Double variable makes [float(val)] raise
    [TypeError] outside any [try]: the exception leaves [parse_and_run]
    at line 2 and line 3 is never processed. The same assignment to an
    Integer variable is caught and reported, and the run goes on. An
    integer literal beyond the range of binary64 ends the run in the
    same way, with [OverflowError]. *)
Theorem double_assignment_aborts_run :
  (exists st, run (program ["d: double;"; "d := ();"; "output << 1;"]) = Crashed TypeError st
              /\ outputs st = [] /\ errors st = []) /\
  (exists st, run (program ["n: integer;"; "n := ();"; "output << 1;"]) = Done st
              /\ outputs st = [T "1"]
              /\ errors st = [Diag (Some 2%nat) (CannotConvert (T "n"))]) /\
  (exists st, run (T "d: double;" ++ nl ++ T "d := 1" ++ zeros 309 ++ T ";" ++ nl
                     ++ T "output << 1;")
              = Crashed OverflowError st /\ outputs st = []).
Proof.
  split; [|split]; eexists; (split; [vm_compute; reflexivity|]); repeat split; reflexivity.
Qed.

(** ** Declarations *)

Lemma run_lines_app l1 :
  forall st i l2,
    run_lines st i (l1 ++ l2)
    = match run_lines st i l1 with
      | Done st1 => run_lines st1 (i + length l1) l2
      | Crashed e st1 => Crashed e st1
      end.
Proof.
  induction l1 as [|l l1 IH]; intros st i l2; simpl.
  - by rewrite Nat.add_0_r.
  - destruct (process_line st i l) as [st1|e st1]; [|done].
    rewrite IH. by replace (S i + length l1)%nat with (i + S (length l1))%nat by lia.
Qed.

Lemma run_lines_cons st i l lines :
  run_lines st i (l :: lines)
  = match process_line st i l with
    | Done st1 => run_lines st1 (S i) lines
    | Crashed e st1 => Crashed e st1
    end.
Proof. reflexivity. Qed.

Lemma filter_redeclared_snoc name es i m :
  List.filter (is_redeclared name) (es ++ [Diag (Some i) m])
  = List.filter (is_redeclared name) es
    ++ (if is_redeclared name (Diag (Some i) m) then [Diag (Some i) m] else []).
Proof. rewrite List.filter_app. simpl. by destruct (is_redeclared name _). Qed.

Section OneName.

Variable name : text.

(** Once declared, a variable keeps its type. *)
Lemma line_effect_keeps_type st i raw_line st1 ty v :
  line_effect st i raw_line st1 ->
  vars st !! name = Some (ty, v) ->
  exists v', vars st1 !! name = Some (ty, v').
Proof.
  intros [[->|(m & _ & ->)]|[(n & typ & old & val & Hn & ->)|[(s & ->)
         |(n & typ & _ & [(Hn & ->)|(_ & ->)])]]] Hv; simpl; eauto.
  - destruct (decide (n = name)) as [->|Hne].
    + rewrite lookup_insert_eq. rewrite Hv in Hn. inversion Hn; subst. eauto.
    + rewrite lookup_insert_ne by done. eauto.
  - destruct (decide (n = name)) as [->|Hne]; [congruence|].
    rewrite lookup_insert_ne by done. eauto.
Qed.

Lemma run_lines_keeps_type lines :
  forall st i ty v,
    vars st !! name = Some (ty, v) ->
    exists v', vars (final (run_lines st i lines)) !! name = Some (ty, v').
Proof.
  induction lines as [|l lines IH]; intros st i ty v Hv; simpl; [eauto|].
  destruct (line_effect_keeps_type _ _ _ _ _ _ (process_line_effect st i l) Hv) as [v' Hv'].
  destruct (process_line st i l) as [st1|e st1]; simpl in *; eauto.
Qed.

(** A line that does not declare the name neither creates the variable
    nor reports its redeclaration. *)
Lemma line_effect_other st i raw_line st1 :
  line_effect st i raw_line st1 ->
  declares name raw_line = false ->
  List.filter (is_redeclared name) (errors st1) = List.filter (is_redeclared name) (errors st)
  /\ (vars st !! name = None -> vars st1 !! name = None).
Proof.
  unfold declares.
  intros [[->|(m & Hm & ->)]|[(n & typ & old & val & Hn & ->)|[(s & ->)
         |(n & typ & Hd & [(Hn & ->)|(_ & ->)])]]] Hdecl; simpl; try done.
  - rewrite filter_redeclared_snoc. unfold is_redeclared at 2. simpl.
    destruct m; try contradiction; by rewrite app_nil_r.
  - split; [done|]. intros Hv.
    destruct (decide (n = name)) as [->|Hne]; [congruence|].
    by rewrite lookup_insert_ne.
  - rewrite Hd in Hdecl. split; [done|]. intros Hv.
    destruct (decide (n = name)) as [->|Hne].
    + unfold text_eqb in Hdecl. by rewrite bool_decide_eq_true_2 in Hdecl.
    + by rewrite lookup_insert_ne.
  - rewrite Hd in Hdecl. rewrite filter_redeclared_snoc.
    unfold is_redeclared at 2. simpl. rewrite Hdecl. by rewrite app_nil_r.
Qed.

Lemma run_lines_other lines :
  forall st i,
    (forall l, In l lines -> declares name l = false) ->
    List.filter (is_redeclared name) (errors (final (run_lines st i lines)))
    = List.filter (is_redeclared name) (errors st)
    /\ (vars st !! name = None -> vars (final (run_lines st i lines)) !! name = None).
Proof.
  induction lines as [|l lines IH]; intros st i Hno; simpl; [done|].
  destruct (line_effect_other _ _ _ _ (process_line_effect st i l)) as [He Hv].
  { apply Hno. by left. }
  destruct (process_line st i l) as [st1|e st1]; simpl in *; [|done].
  destruct (IH st1 (S i)) as [He' Hv']; [intros l' Hl'; apply Hno; by right|].
  split; [congruence|auto].
Qed.

Lemma process_line_declaration st i raw_line ty :
  declaration raw_line = Some (name, ty) ->
  process_line st i raw_line
  = Done (match vars st !! name with
          | Some _ => error st (Redeclared name) (Some i)
          | None => set_var st name ty None
          end).
Proof.
  unfold declaration, process_line.
  destruct (text_eqb (strip raw_line) []); [discriminate|].
  destruct (rematch RE_DECL (strip raw_line)) as [m|]; [|discriminate].
  intros H. inversion H; subst. by destruct (vars st !! grp 1 m).
Qed.

(** C4 on the runs that reach their last line: with exactly two
    declarations of a name, the second one is reported, once, and the
    variable has the type of the first. *)
Lemma two_declarations_completed
    (src : text) (l1 l2 l3 : list text) (a b : text) (ta tb : text) (st : interp) :
  splitlines src = l1 ++ a :: l2 ++ b :: l3 ->
  declaration a = Some (name, ta) ->
  declaration b = Some (name, tb) ->
  (forall l, In l (l1 ++ l2 ++ l3) -> declares name l = false) ->
  run src = Done st ->
  List.filter (is_redeclared name) (errors st)
    = [Diag (Some (length l1 + length l2 + 2)%nat) (Redeclared name)]
  /\ exists v, vars st !! name = Some (ta, v).
Proof.
  intros Hlines Ha Hb Hno Hrun.
  unfold run, parse_and_run in Hrun.
  change (source_lines (Interpreter src)) with (splitlines src) in Hrun.
  rewrite Hlines in Hrun.
  set (st0 := Interpreter src) in *.
  assert (Hno1 : forall l, In l l1 -> declares name l = false)
    by (intros l Hl; apply Hno; rewrite !in_app_iff; tauto).
  assert (Hno2 : forall l, In l l2 -> declares name l = false)
    by (intros l Hl; apply Hno; rewrite !in_app_iff; tauto).
  assert (Hno3 : forall l, In l l3 -> declares name l = false)
    by (intros l Hl; apply Hno; rewrite !in_app_iff; tauto).
  rewrite run_lines_app in Hrun.
  destruct (run_lines_other l1 st0 1 Hno1) as [He1 Hv1].
  destruct (run_lines st0 1 l1) as [s1|] eqn:H1; [|discriminate]. simpl in He1, Hv1.
  specialize (Hv1 (lookup_empty _)).
  rewrite run_lines_cons, (process_line_declaration _ _ _ _ Ha), Hv1 in Hrun.
  rewrite run_lines_app in Hrun.
  set (i2 := S (1 + length l1)) in *.
  set (s2 := set_var s1 name ta None) in *.
  assert (Hs2 : vars s2 !! name = Some (ta, None)) by (simpl; by rewrite lookup_insert_eq).
  destruct (run_lines_other l2 s2 i2 Hno2) as [He2 _].
  destruct (run_lines_keeps_type l2 s2 i2 _ _ Hs2) as [v3 Hv3].
  destruct (run_lines s2 i2 l2) as [s3|] eqn:H2; [|discriminate].
  simpl in He2, Hv3.
  rewrite run_lines_cons, (process_line_declaration _ _ _ _ Hb), Hv3 in Hrun.
  set (i4 := (i2 + length l2)%nat) in *.
  set (s4 := error s3 (Redeclared name) (Some i4)) in *.
  assert (Hs4 : vars s4 !! name = Some (ta, v3)) by done.
  destruct (run_lines_other l3 s4 (S i4) Hno3) as [He3 _].
  destruct (run_lines_keeps_type l3 s4 (S i4) _ _ Hs4) as [v5 Hv5].
  rewrite Hrun in He3, Hv5. simpl in He3, Hv5.
  split; [|eauto].
  rewrite He3. subst s4. simpl. rewrite filter_redeclared_snoc, He2. subst s2. simpl.
  rewrite He1. simpl. unfold is_redeclared. simpl. unfold text_eqb.
  rewrite bool_decide_eq_true_2 by done.
  by replace (length l1 + length l2 + 2)%nat with i4 by (subst i4 i2; lia).
Qed.

End OneName.

Example two_declarations_completed_example :
  let src := program ["x: integer;"; "x := 1;"; "x: double;"] in
  List.filter (is_redeclared (T "x")) (errors (final (run src)))
    = [Diag (Some 3%nat) (Redeclared (T "x"))]
  /\ exists v, vars (final (run src)) !! T "x" = Some (T "integer", v).
Proof.
  intros src.
  apply (two_declarations_completed (T "x") src [] [T "x := 1;"] []
           (T "x: integer;") (T "x: double;") (T "integer") (T "double")).
  - vm_compute. reflexivity.
  - vm_compute. reflexivity.
  - vm_compute. reflexivity.
  - intros l [<-|[]]. vm_compute. reflexivity.
  - vm_compute. reflexivity.
Qed.

(** C4, a run that does not reach the second declaration. The
    assignment on line 2 makes [float(val)] raise [TypeError], which
    nothing catches, and the run ends there: the declaration on line 3
    is not processed and no redeclaration is recorded. With an Integer
    variable, whose conversion is guarded, the redeclaration is reported
    and the type of the first declaration stays. *)
Theorem redeclaration_missed_after_abort :
  (exists st, run (program ["d: double;"; "d := ();"; "d: integer;"]) = Crashed TypeError st
              /\ errors st = []
              /\ vars st !! T "d" = Some (T "double", None)) /\
  (exists st, run (program ["n: integer;"; "n := ();"; "n: double;"]) = Done st
              /\ errors st = [Diag (Some 2%nat) (CannotConvert (T "n"));
                              Diag (Some 3%nat) (Redeclared (T "n"))]
              /\ vars st !! T "n" = Some (T "integer", None)).
Proof.
  split; eexists; (split; [vm_compute; reflexivity|]); split; vm_compute; reflexivity.
Qed.

(** ** Removing white space *)

Lemma star_states_nonempty g p cs s : forall pr, star_states g p cs pr s <> [].
Proof.
  induction s as [|c t IH]; intros pr; simpl; [discriminate|].
  destruct (p c); [|discriminate]. destruct g; [|discriminate].
  intros H. apply app_eq_nil in H as [_ H]. discriminate.
Qed.

Lemma filter_space_cons c t :
  is_space c = true -> List.filter not_space (c :: t) = List.filter not_space t.
Proof. intros H. simpl. unfold not_space at 1. by rewrite H. Qed.

Lemma filter_nonspace_cons c t :
  is_space c = false -> List.filter not_space (c :: t) = c :: List.filter not_space t.
Proof. intros H. simpl. unfold not_space at 1. by rewrite H. Qed.

Lemma re_sub_spaces (s : text) :
  forall pr skip,
    forallb is_space (firstn skip s) = true ->
    re_sub_from RE_SPACES (fun _ => inr [] : Empty_set + text) pr s skip
    = inr (List.filter not_space s).
Proof.
  induction s as [|c t IH]; intros pr skip Hskip; [reflexivity|].
  destruct skip as [|k].
  - cbn [re_sub_from].
    destruct (head (rmatch RE_SPACES (MState pr (c :: t) []))) as [m|] eqn:Hm.
    + apply head_In in Hm. unfold RE_SPACES, plus in Hm.
      apply in_rmatch_cat in Hm as (x & Hx & Hm).
      apply rmatch_cls_split in Hx as (c' & Hx & Hc').
      apply star_states_split in Hm as (w & Hw & Hws).
      simpl in Hx. injection Hx as Hc Ht. rewrite <- Hc in Hc'. clear Hc c'.
      rewrite Hw in Ht.
      assert (Hcons : consumed (MState pr (c :: t) []) m = c :: w).
      { apply consumed_prefix. simpl. by rewrite Ht. }
      rewrite Hcons.
      replace (length (c :: w) - 1)%nat with (length w) by (simpl; lia).
      rewrite (IH (Some c) (length w)).
      * by rewrite (filter_space_cons _ _ Hc').
      * rewrite Ht, take_app_length. exact Hws.
    + assert (Hc : is_space c = false).
      { destruct (is_space c) eqn:Hc; [exfalso|done].
        unfold RE_SPACES, plus in Hm. simpl in Hm. rewrite Hc in Hm. simpl in Hm.
        rewrite app_nil_r in Hm.
        destruct (star_states true is_space [] (Some c) t) eqn:Hs; [|discriminate].
        by apply star_states_nonempty in Hs. }
      rewrite (IH (Some c) O) by reflexivity.
      by rewrite (filter_nonspace_cons _ _ Hc).
  - cbn [re_sub_from]. simpl in Hskip. apply andb_prop in Hskip as [Hc Hk].
    rewrite (IH (Some c) k Hk). by rewrite (filter_space_cons _ _ Hc).
Qed.

Lemma remove_whitespace_all_eq (s : text) :
  remove_whitespace_all s = List.filter not_space s.
Proof.
  unfold remove_whitespace_all, re_sub. by rewrite re_sub_spaces.
Qed.

(** X1. [remove_whitespace_all] deletes the white-space characters and
    nothing else: the result is the text without them, the other
    characters in their order; no white space is left. *)
Theorem remove_whitespace_all_filter (s : text) :
  remove_whitespace_all s = List.filter not_space s /\
  forallb not_space (remove_whitespace_all s) = true /\
  (length (remove_whitespace_all s) <= length s)%nat.
Proof.
  rewrite remove_whitespace_all_eq. split; [done|]. split.
  - apply forallb_forall. intros c Hc. by apply filter_In in Hc as [_ Hc].
  - apply List.filter_length_le.
Qed.

(** X2. [remove_whitespace_all] can be applied piece by piece, also
    when a run of white space lies across the cut; applying it twice
    changes nothing more; a text without white space is returned as it
    is. *)
Theorem remove_whitespace_all_compose (a b : text) :
  remove_whitespace_all (a ++ b) = remove_whitespace_all a ++ remove_whitespace_all b /\
  remove_whitespace_all (remove_whitespace_all a) = remove_whitespace_all a /\
  (forallb not_space a = true <-> remove_whitespace_all a = a).
Proof.
  rewrite !remove_whitespace_all_eq. split; [apply List.filter_app|].
  split.
  - induction a as [|c a IH]; [done|]. simpl.
    destruct (not_space c) eqn:Hc; simpl; rewrite ?Hc; by rewrite IH.
  - split.
    + intros H. induction a as [|c a IH]; [done|]. simpl in *.
      apply andb_prop in H as [Hc H]. rewrite Hc. by rewrite IH.
    + intros H. rewrite <- H. apply forallb_forall. intros c Hc.
      by apply filter_In in Hc as [_ Hc].
Qed.

(** ** Searching *)

Lemma prev_of_cons pr c a : prev_of pr (c :: a) = prev_of (Some c) a.
Proof.
  unfold prev_of. destruct a as [|x a]; [reflexivity|].
  change (last (c :: x :: a)) with (last (x :: a)).
  destruct (last (x :: a)) eqn:H; [done|]. apply last_None in H. discriminate.
Qed.

Lemma re_search_from_iff r s :
  forall pr,
    re_search_from r pr s = true <->
    exists a b, s = a ++ b /\ rmatch r (MState (prev_of pr a) b []) <> [].
Proof.
  induction s as [|c t IH]; intros pr; simpl.
  - destruct (head (rmatch r (MState pr [] []))) eqn:Hh.
    + split; [intros _|done]. exists [], []. split; [done|].
      simpl. intros H. unfold prev_of in H. simpl in H. by rewrite H in Hh.
    + split; [discriminate|]. intros (a & b & Hab & Hne).
      symmetry in Hab. apply app_eq_nil in Hab as [-> ->].
      unfold prev_of in Hne. simpl in Hne. by destruct (rmatch r (MState pr [] [])).
  - destruct (head (rmatch r (MState pr (c :: t) []))) eqn:Hh.
    + split; [intros _|done]. exists [], (c :: t). split; [done|].
      unfold prev_of. simpl. intros H. by rewrite H in Hh.
    + rewrite IH. split.
      * intros (a & b & -> & Hne). exists (c :: a), b. split; [done|].
        by rewrite prev_of_cons.
      * intros (a & b & Hab & Hne). destruct a as [|c' a].
        -- simpl in Hab. subst b. unfold prev_of in Hne. simpl in Hne.
           by destruct (rmatch r (MState pr (c :: t) [])).
        -- simpl in Hab. injection Hab as <- ->. exists a, b. split; [done|].
           by rewrite prev_of_cons in Hne.
Qed.

Lemma rmatch_lit_i_intro (w : text) :
  forall u st r,
    map lower u = map lower w -> rest st = u ++ r ->
    rmatch (fold_right (fun c r => Cat (chr_i c) r) Eps w) st
    = [MState (prev_of (prev st) u) r (caps st)].
Proof.
  induction w as [|c w IH]; intros u st r Hu Hr.
  - destruct u; [|discriminate]. simpl in *. destruct st. simpl in *. by subst.
  - destruct u as [|d u]; [discriminate|]. simpl in Hu. injection Hu as Hd Hu.
    simpl. rewrite Hr. simpl. rewrite bool_decide_eq_true_2 by done. simpl.
    rewrite (IH u (advance d (u ++ r) st) r Hu eq_refl). simpl.
    by rewrite prev_of_cons.
Qed.

Lemma letters_lower (u w : text) :
  map lower u = map lower w -> forallb is_letter w = true -> forallb is_letter u = true.
Proof.
  revert w. induction u as [|c u IH]; intros [|d w] H Hw; try discriminate; [done|].
  simpl in *. injection H as Hc Hu. apply andb_prop in Hw as [Hd Hw].
  rewrite (lower_letter c d Hc Hd). by apply (IH w).
Qed.

Lemma word_opt_head_letters (u r : text) :
  u <> [] -> forallb is_letter u = true -> word_opt (head (u ++ r)) = true.
Proof.
  destruct u as [|c u]; [done|]. simpl. intros _ H.
  apply andb_prop in H as [H _]. by apply letter_is_word.
Qed.

Lemma word_opt_prev_letters pr (u : text) :
  u <> [] -> forallb is_letter u = true -> word_opt (prev_of pr u) = true.
Proof.
  intros Hne H. unfold prev_of. destruct (last u) as [c|] eqn:Hl.
  - simpl. apply letter_is_word. rewrite forallb_forall in H. apply H.
    apply last_Some in Hl as [l' ->]. apply in_app_iff. right. by left.
  - apply last_None in Hl. done.
Qed.

(** The pattern of a word made of letters matches at a position exactly
    when the word stands there in some case, between two characters that
    are not word characters. *)
Lemma word_pattern_matches (w : text) pr (b : text) :
  w <> [] -> forallb is_letter w = true ->
  (rmatch (word_pattern w) (MState pr b []) <> [] <->
   exists u r, b = u ++ r /\ map lower u = map lower w /\
               word_opt pr = false /\ word_opt (head r) = false).
Proof.
  intros Hne Hw. unfold word_pattern, seq. cbn [fold_right]. split.
  - intros H. destruct (rmatch _ _) as [|m l] eqn:Hm; [done|]. clear H.
    assert (Hin : In m (m :: l)) by (by left). rewrite <- Hm in Hin. clear Hm l.
    apply in_rmatch_cat in Hin as (s1 & H1 & Hin).
    apply in_rmatch_cat in Hin as (s2 & H2 & Hin).
    apply in_rmatch_cat in Hin as (s3 & H3 & _).
    simpl in H1. destruct (xorb _ _) eqn:Hx1; [|contradiction]. destruct H1 as [<-|[]].
    pose proof H2 as H2'. apply rmatch_lit_i_split in H2' as (u & Hu & Hlow).
    simpl in Hu. rewrite (rmatch_lit_i_intro w u (MState pr b []) (rest s2) Hlow Hu) in H2.
    destruct H2 as [H2|[]]. apply (f_equal prev) in H2. simpl in H2, H3.
    rewrite <- H2 in H3.
    destruct (xorb (word_opt (prev_of pr u)) _) eqn:Hx3 in H3; [|contradiction].
    assert (Hul : forallb is_letter u = true) by (by eapply letters_lower).
    assert (Hune : u <> []) by (intros ->; by destruct w).
    rewrite Hu, (word_opt_head_letters u _ Hune Hul) in Hx1.
    rewrite (word_opt_prev_letters pr u Hune Hul) in Hx3.
    exists u, (rest s2). repeat split; try done.
    + by destruct (word_opt pr).
    + by destruct (word_opt (head (rest s2))).
  - intros (u & r & -> & Hlow & Hpr & Hr).
    assert (Hul : forallb is_letter u = true) by (by eapply letters_lower).
    assert (Hune : u <> []) by (intros ->; by destruct w).
    simpl. rewrite Hpr, (word_opt_head_letters u r Hune Hul). simpl.
    rewrite (rmatch_lit_i_intro w u (MState pr (u ++ r) []) r Hlow eq_refl). simpl.
    rewrite (word_opt_prev_letters pr u Hune Hul), Hr. simpl. discriminate.
Qed.

Lemma re_search_word (w s : text) :
  w <> [] -> forallb is_letter w = true ->
  (re_search (word_pattern w) s = true <-> whole_word_occurrence w s).
Proof.
  intros Hne Hw. unfold re_search. rewrite re_search_from_iff. split.
  - intros (a & b & -> & Hm).
    apply (word_pattern_matches w _ b Hne Hw) in Hm as (u & r & -> & Hlow & Hpr & Hr).
    exists a, u, r. repeat split; try done.
    unfold prev_of in Hpr. by destruct (last a).
  - intros (a & u & b & -> & Hlow & Ha & Hb). exists a, (u ++ b). split; [done|].
    apply (word_pattern_matches w _ (u ++ b) Hne Hw). exists u, b. repeat split; try done.
    unfold prev_of. by destruct (last a).
Qed.

Lemma starts_with_iff (p s : text) : starts_with p s = true <-> exists b, s = p ++ b.
Proof.
  revert s. induction p as [|a p IH]; intros s; simpl.
  - split; [intros _; by exists s|done].
  - destruct s as [|c s].
    + split; [discriminate|]. intros [b H]. discriminate.
    + rewrite andb_true_iff, bool_decide_eq_true, IH. split.
      * intros [-> [b ->]]. by exists b.
      * intros [b H]. injection H as -> ->. eauto.
Qed.

Lemma contains_iff (p s : text) : contains p s = true <-> occurs p s.
Proof.
  unfold occurs. induction s as [|c s IH]; simpl.
  - rewrite orb_false_r, starts_with_iff. split.
    + intros [b H]. by exists [], b.
    + intros (a & b & H). destruct a; [by exists b|discriminate].
  - rewrite orb_true_iff, starts_with_iff, IH. split.
    + intros [[b H]|(a & b & ->)]; [by exists [], b|by exists (c :: a), b].
    + intros (a & b & H). destruct a as [|c' a]; [left; by exists b|].
      injection H as <- ->. right. by exists a, b.
Qed.
(** ** The report of reserved words and symbols *)

Lemma filter_Permutation' {A} (f : A -> bool) (l l' : list A) :
  Permutation l l' -> Permutation (List.filter f l) (List.filter f l').
Proof.
  induction 1 as [|x l l' _ IH|x y l|l l' l'' _ IH1 _ IH2]; simpl.
  - done.
  - destruct (f x); [by constructor|done].
  - destruct (f x), (f y); try done. apply perm_swap.
  - by etransitivity.
Qed.

Lemma insert_by_len_Permutation x l : Permutation (insert_by_len x l) (x :: l).
Proof.
  induction l as [|y l IH]; simpl; [done|].
  destruct (length y <=? length x)%nat; [done|].
  rewrite IH. apply perm_swap.
Qed.

Lemma sorted_by_len_Permutation l : Permutation (sorted_by_len l) l.
Proof.
  induction l as [|x l IH]; simpl; [done|].
  rewrite insert_by_len_Permutation. by constructor.
Qed.

Lemma insert_two x l :
  length x = 2%nat -> Forall short l -> insert_by_len x l = x :: l.
Proof.
  intros Hx Hl. destruct l as [|y l]; [done|]. simpl.
  apply Forall_cons in Hl as [[Hy|Hy] _]; rewrite Hx, Hy; reflexivity.
Qed.

Lemma insert_one x l2 l1 :
  length x = 1%nat ->
  Forall (fun y => length y = 2%nat) l2 -> Forall (fun y => length y = 1%nat) l1 ->
  insert_by_len x (l2 ++ l1) = l2 ++ x :: l1.
Proof.
  intros Hx H2 H1. induction l2 as [|y l2 IH]; simpl.
  - destruct l1 as [|y l1]; [done|]. simpl.
    apply Forall_cons in H1 as [Hy _]. by rewrite Hx, Hy.
  - apply Forall_cons in H2 as [Hy H2]. rewrite Hx, Hy. simpl. by rewrite IH.
Qed.

Lemma filter_has_length n (l : list text) :
  Forall (fun y => length y = n) (List.filter (has_length n) l).
Proof.
  apply Forall_forall. intros y Hy. apply list_elem_of_In, filter_In in Hy as [_ Hy].
  by apply Nat.eqb_eq in Hy.
Qed.

(** On texts of one or two characters the sort puts those of two
    characters first and keeps the order inside each group. *)
Lemma sorted_by_len_short l :
  Forall short l ->
  sorted_by_len l = List.filter (has_length 2) l ++ List.filter (has_length 1) l.
Proof.
  induction l as [|x l IH]; intros Hl; [done|].
  apply Forall_cons in Hl as [Hx Hl]. simpl. rewrite (IH Hl).
  destruct Hx as [Hx|Hx].
  - assert (has_length 2 x = false) as -> by (unfold has_length; by rewrite Hx).
    assert (has_length 1 x = true) as -> by (unfold has_length; by rewrite Hx).
    apply insert_one; [done|apply filter_has_length..].
  - assert (has_length 2 x = true) as -> by (unfold has_length; by rewrite Hx).
    assert (has_length 1 x = false) as -> by (unfold has_length; by rewrite Hx).
    apply insert_two; [done|]. apply Forall_app. split.
    + eapply Forall_impl; [apply (filter_has_length 2)|]. intros y Hy. by right.
    + eapply Forall_impl; [apply (filter_has_length 1)|]. intros y Hy. by left.
Qed.

Lemma reserved_word_letters w :
  In w RESERVED_WORDS -> w <> [] /\ forallb is_letter w = true.
Proof. simpl. intros [<-|[<-|[<-|[<-|[]]]]]; split; done. Qed.

Lemma symbol_facts x :
  In x SYMBOLS ->
  short x /\ forallb is_letter x = false /\ forallb not_space x = true.
Proof.
  unfold short. simpl. intros H.
  repeat (destruct H as [<-|H]; [repeat split; (reflexivity || (left; reflexivity) || (right; reflexivity))|]).
  destruct H.
Qed.

Lemma reserved_not_symbol x : In x RESERVED_WORDS -> In x SYMBOLS -> False.
Proof.
  intros Hw Hs. apply reserved_word_letters in Hw as [_ Hw].
  apply symbol_facts in Hs as (_ & Hs & _). congruence.
Qed.

Section Orders.

Variables words syms : list text.
Hypothesis Hwords : Permutation words RESERVED_WORDS.
Hypothesis Hsyms : Permutation syms SYMBOLS.

Lemma tokenize_In x s :
  In x (tokenize_symbols_and_reserved words syms s) <->
  (In x RESERVED_WORDS /\ re_search (word_pattern x) s = true) \/
  (In x SYMBOLS /\ contains x s = true).
Proof.
  unfold tokenize_symbols_and_reserved. rewrite in_app_iff, !filter_In.
  assert (H1 : In x words <-> In x RESERVED_WORDS).
  { split; apply Permutation_in; [done|by symmetry]. }
  assert (H2 : In x (sorted_by_len syms) <-> In x SYMBOLS).
  { split; apply Permutation_in.
    - by rewrite sorted_by_len_Permutation.
    - by rewrite sorted_by_len_Permutation. }
  tauto.
Qed.

Lemma tokenize_word w s :
  In w RESERVED_WORDS ->
  (In w (tokenize_symbols_and_reserved words syms s) <-> whole_word_occurrence w s).
Proof.
  intros Hw. rewrite tokenize_In.
  destruct (reserved_word_letters w Hw) as [Hne Hl].
  rewrite (re_search_word w s Hne Hl). split; [|tauto].
  intros [[_ H]|[H _]]; [done|]. exfalso. by eapply reserved_not_symbol.
Qed.

Lemma tokenize_symbol x s :
  In x SYMBOLS ->
  (In x (tokenize_symbols_and_reserved words syms s) <-> occurs x s).
Proof.
  intros Hx. rewrite tokenize_In, contains_iff. split; [|tauto].
  intros [[H _]|[_ H]]; [|done]. exfalso. by eapply reserved_not_symbol.
Qed.

Lemma tokenize_formula s :
  tokenize_symbols_and_reserved words syms s
  = List.filter (fun w => re_search (word_pattern w) s) words
    ++ List.filter (fun x => contains x s) (List.filter (has_length 2) syms)
    ++ List.filter (fun x => contains x s) (List.filter (has_length 1) syms).
Proof.
  unfold tokenize_symbols_and_reserved. rewrite sorted_by_len_short, List.filter_app; [done|].
  apply Forall_forall. intros x Hx. apply list_elem_of_In in Hx.
  apply (Permutation_in _ Hsyms) in Hx. by apply symbol_facts in Hx as [Hx _].
Qed.

End Orders.

Lemma NoDup_RESERVED_WORDS : NoDup RESERVED_WORDS.
Proof. apply (bool_decide_unpack _). by vm_compute. Qed.

Lemma NoDup_SYMBOLS : NoDup SYMBOLS.
Proof. apply (bool_decide_unpack _). by vm_compute. Qed.

Lemma NoDup_List_filter (f : text -> bool) (l : list text) :
  NoDup l -> NoDup (List.filter f l).
Proof.
  induction 1 as [|x l Hx Hl IH]; simpl; [constructor|].
  destruct (f x); [|done]. constructor; [|done].
  intros Hin. apply Hx. apply list_elem_of_In. apply list_elem_of_In, filter_In in Hin. tauto.
Qed.

(** X3. Whatever the orders in which the two sets are iterated,
    [tokenize_symbols_and_reserved] reports a reserved word exactly when
    it occurs in the text as a whole word, in any case, and a symbol
    exactly when it occurs in the text; it reports nothing else and
    nothing twice. *)
Theorem tokenize_reports (words syms : list text) (s : text) :
  Permutation words RESERVED_WORDS ->
  Permutation syms SYMBOLS ->
  (forall w, In w RESERVED_WORDS ->
             (In w (tokenize_symbols_and_reserved words syms s) <-> whole_word_occurrence w s)) /\
  (forall x, In x SYMBOLS ->
             (In x (tokenize_symbols_and_reserved words syms s) <-> occurs x s)) /\
  (forall x, In x (tokenize_symbols_and_reserved words syms s) ->
             In x RESERVED_WORDS \/ In x SYMBOLS) /\
  NoDup (tokenize_symbols_and_reserved words syms s).
Proof.
  intros Hwords Hsyms.
  split; [intros w; by apply tokenize_word|].
  split; [intros x; by apply tokenize_symbol|].
  split; [intros x Hx; apply (tokenize_In words syms Hwords Hsyms) in Hx; tauto|].
  unfold tokenize_symbols_and_reserved. apply NoDup_app. split; [|split].
  - apply NoDup_List_filter. rewrite Hwords. apply NoDup_RESERVED_WORDS.
  - intros x Hx Hx'. apply list_elem_of_In, filter_In in Hx as [Hx _].
    apply list_elem_of_In, filter_In in Hx' as [Hx' _].
    apply (Permutation_in _ Hwords) in Hx.
    apply (Permutation_in _ (sorted_by_len_Permutation syms)) in Hx'.
    apply (Permutation_in _ Hsyms) in Hx'. by eapply reserved_not_symbol.
  - apply NoDup_List_filter. rewrite sorted_by_len_Permutation, Hsyms. apply NoDup_SYMBOLS.
Qed.

Lemma tokenize_reports_witness :
  (forall w, In w RESERVED_WORDS ->
             (In w (tokenize_symbols_and_reserved RESERVED_WORDS SYMBOLS (T "IF (x < 1)"))
              <-> whole_word_occurrence w (T "IF (x < 1)"))) /\
  (forall x, In x SYMBOLS ->
             (In x (tokenize_symbols_and_reserved RESERVED_WORDS SYMBOLS (T "IF (x < 1)"))
              <-> occurs x (T "IF (x < 1)"))) /\
  (forall x, In x (tokenize_symbols_and_reserved RESERVED_WORDS SYMBOLS (T "IF (x < 1)")) ->
             In x RESERVED_WORDS \/ In x SYMBOLS) /\
  NoDup (tokenize_symbols_and_reserved RESERVED_WORDS SYMBOLS (T "IF (x < 1)")).
Proof.
  apply (tokenize_reports RESERVED_WORDS SYMBOLS (T "IF (x < 1)")); reflexivity.
Defined.

(** X4. The report lists the reserved words found, in the order in
    which the set is iterated, then the symbols found: those of two
    characters before those of one, each group in the order in which the
    set is iterated. Two iteration orders give the same entries, up to
    their order inside the three groups. *)
Theorem tokenize_order (words syms words' syms' : list text) (s : text) :
  Permutation words RESERVED_WORDS ->
  Permutation syms SYMBOLS ->
  Permutation words' RESERVED_WORDS ->
  Permutation syms' SYMBOLS ->
  tokenize_symbols_and_reserved words syms s
  = List.filter (fun w => re_search (word_pattern w) s) words
    ++ List.filter (fun x => contains x s) (List.filter (has_length 2) syms)
    ++ List.filter (fun x => contains x s) (List.filter (has_length 1) syms)
  /\ Permutation (tokenize_symbols_and_reserved words syms s)
                 (tokenize_symbols_and_reserved words' syms' s).
Proof.
  intros Hw Hs Hw' Hs'. split; [by apply tokenize_formula|].
  unfold tokenize_symbols_and_reserved. apply Permutation_app.
  - apply filter_Permutation'. by rewrite Hw, Hw'.
  - apply filter_Permutation'. rewrite !sorted_by_len_Permutation. by rewrite Hs, Hs'.
Qed.

Lemma tokenize_order_witness :
  tokenize_symbols_and_reserved RESERVED_WORDS SYMBOLS (T "x := 1;")
  = List.filter (fun w => re_search (word_pattern w) (T "x := 1;")) RESERVED_WORDS
    ++ List.filter (fun x => contains x (T "x := 1;")) (List.filter (has_length 2) SYMBOLS)
    ++ List.filter (fun x => contains x (T "x := 1;")) (List.filter (has_length 1) SYMBOLS)
  /\ Permutation (tokenize_symbols_and_reserved RESERVED_WORDS SYMBOLS (T "x := 1;"))
                 (tokenize_symbols_and_reserved (rev RESERVED_WORDS) (rev SYMBOLS) (T "x := 1;")).
Proof.
  apply (tokenize_order RESERVED_WORDS SYMBOLS (rev RESERVED_WORDS) (rev SYMBOLS) (T "x := 1;"));
    first [reflexivity | symmetry; apply Permutation_rev].
Defined.

Lemma occurs_trans (x y s : text) : occurs x y -> occurs y s -> occurs x s.
Proof.
  intros (a & b & ->) (a' & b' & ->). exists (a' ++ a), (b ++ b').
  by rewrite <- !app_assoc.
Qed.

(** X5. A symbol is reported as soon as it occurs inside a reported
    symbol: the report of [:=] brings those of [:] and [=], the report
    of [==] or [!=] that of [=], the report of [<<] that of [<], also
    when the shorter symbol stands nowhere by itself. *)
Theorem tokenize_compound_symbols (words syms : list text) (s : text) :
  Permutation words RESERVED_WORDS ->
  Permutation syms SYMBOLS ->
  let found := tokenize_symbols_and_reserved words syms s in
  (forall x y, In x SYMBOLS -> In y SYMBOLS -> occurs x y -> In y found -> In x found) /\
  (In (T ":=") found -> In (T ":") found /\ In (T "=") found) /\
  (In (T "==") found -> In (T "=") found) /\
  (In (T "!=") found -> In (T "=") found) /\
  (In (T "<<") found -> In (T "<") found).
Proof.
  intros Hwords Hsyms found.
  assert (Hgen : forall x y, In x SYMBOLS -> In y SYMBOLS -> occurs x y ->
                             In y found -> In x found).
  { intros x y Hx Hy Hxy Hfound.
    apply (tokenize_symbol words syms Hwords Hsyms y s Hy) in Hfound.
    apply (tokenize_symbol words syms Hwords Hsyms x s Hx). by eapply occurs_trans. }
  split; [exact Hgen|].
  assert (Hin : forall x, existsb (text_eqb x) SYMBOLS = true -> In x SYMBOLS).
  { intros x Hex. apply existsb_exists in Hex as (y & Hy & Heq).
    apply bool_decide_eq_true in Heq. by subst. }
  split; [intros Hf; split|split; [|split]; intros Hf].
  - apply (Hgen (T ":") (T ":=")); [by apply Hin..| |done]. by exists [], (T "=").
  - apply (Hgen (T "=") (T ":=")); [by apply Hin..| |done]. by exists (T ":"), [].
  - apply (Hgen (T "=") (T "==")); [by apply Hin..| |done]. by exists [], (T "=").
  - apply (Hgen (T "=") (T "!=")); [by apply Hin..| |done]. by exists (T "!"), [].
  - apply (Hgen (T "<") (T "<<")); [by apply Hin..| |done]. by exists [], (T "<").
Qed.

Lemma tokenize_compound_symbols_witness :
  let found := tokenize_symbols_and_reserved RESERVED_WORDS SYMBOLS (T "x := 1;") in
  (forall x y, In x SYMBOLS -> In y SYMBOLS -> occurs x y -> In y found -> In x found) /\
  (In (T ":=") found -> In (T ":") found /\ In (T "=") found) /\
  (In (T "==") found -> In (T "=") found) /\
  (In (T "!=") found -> In (T "=") found) /\
  (In (T "<<") found -> In (T "<") found).
Proof.
  apply (tokenize_compound_symbols RESERVED_WORDS SYMBOLS (T "x := 1;")); reflexivity.
Defined.

Lemma filter_not_space_id (x : text) :
  forallb not_space x = true -> List.filter not_space x = x.
Proof.
  induction x as [|c x IH]; [done|]. simpl. intros H.
  apply andb_prop in H as [Hc H]. rewrite Hc. by rewrite IH.
Qed.

(** X6. A symbol reported for a text is reported for the text without
    its white space: removing white space breaks no occurrence of a
    symbol. *)
Theorem tokenize_without_whitespace (words syms : list text) (s x : text) :
  Permutation words RESERVED_WORDS ->
  Permutation syms SYMBOLS ->
  In x SYMBOLS ->
  In x (tokenize_symbols_and_reserved words syms s) ->
  In x (tokenize_symbols_and_reserved words syms (remove_whitespace_all s)).
Proof.
  intros Hwords Hsyms Hx Hfound.
  apply (tokenize_symbol words syms Hwords Hsyms x s Hx) in Hfound as (a & b & ->).
  apply (tokenize_symbol words syms Hwords Hsyms x _ Hx).
  rewrite remove_whitespace_all_eq, !List.filter_app.
  apply symbol_facts in Hx as (_ & _ & Hx). rewrite (filter_not_space_id x Hx).
  by eexists _, _.
Qed.

Lemma tokenize_without_whitespace_witness :
  In (T ":=") (tokenize_symbols_and_reserved RESERVED_WORDS SYMBOLS
                 (remove_whitespace_all (T "x := 1;"))).
Proof.
  apply (tokenize_without_whitespace RESERVED_WORDS SYMBOLS (T "x := 1;") (T ":="));
    try reflexivity.
  - vm_compute. tauto.
  - vm_compute. tauto.
Defined.

(** ** The variables *)

Lemma rmatch_grp_group n r st st' :
  In st' (rmatch (Grp n r) st) ->
  exists x, In x (rmatch r st) /\ rest st' = rest x /\
            group n (caps st') = Some (consumed st x).
Proof.
  simpl. intros H. apply in_map_iff in H as (x & <- & Hx).
  exists x. split; [done|]. split; [done|]. simpl. by rewrite Nat.eqb_refl.
Qed.









(** ** Runs that end early *)

Lemma py_float_raise val e : py_float val = Raise e -> e = TypeError \/ e = OverflowError.
Proof.
  destruct val as [z|f| |]; simpl; [|discriminate|intros [= <-]; by left..].
  destruct (is_finite _); [discriminate|]. intros [= <-]. by right.
Qed.










(** ** Where the variables come from *)

Lemma run_lines_first_declaration name lines :
  forall st i ty v,
    vars st !! name = None ->
    vars (final (run_lines st i lines)) !! name = Some (ty, v) ->
    exists l1 a l2,
      lines = l1 ++ a :: l2 /\
      Forall (fun l => declares name l = false) l1 /\
      declaration a = Some (name, ty).
Proof.
  induction lines as [|l lines IH]; intros st i ty v Hnone Hfin.
  { simpl in Hfin. congruence. }
  rewrite run_lines_cons in Hfin.
  destruct (declares name l) eqn:Hdec.
  - unfold declares in Hdec. destruct (declaration l) as [[n ty']|] eqn:Hd; [|discriminate].
    apply bool_decide_eq_true in Hdec. subst n.
    rewrite (process_line_declaration name st i l ty' Hd), Hnone in Hfin.
    destruct (run_lines_keeps_type name lines (set_var st name ty' None) (S i) ty' None)
      as [v' Hv']; [simpl; by rewrite lookup_insert_eq|].
    rewrite Hv' in Hfin. injection Hfin as <- <-.
    exists [], l, lines. split; [done|]. split; [constructor|done].
  - pose proof (line_effect_other name _ _ _ _ (process_line_effect st i l) Hdec) as [_ Hkeep].
    specialize (Hkeep Hnone).
    destruct (process_line st i l) as [st1|e st1]; simpl in Hkeep; [|simpl in Hfin; congruence].
    destruct (IH st1 (S i) ty v Hkeep Hfin) as (l1 & a & l2 & -> & Hl1 & Ha).
    exists (l :: l1), a, l2. split; [done|]. split; [by constructor|done].
Qed.

(** X10. A variable exists at the end of a run only if a line of the
    source declares it, and its type is the one that the first such
    line gives: assignments, outputs, conditionals and later
    declarations create no variable and change no type. *)
Theorem variable_from_first_declaration (src name ty : text) (v : option value) :
  vars (final (run src)) !! name = Some (ty, v) ->
  exists l1 a l2,
    splitlines src = l1 ++ a :: l2 /\
    Forall (fun l => declares name l = false) l1 /\
    declaration a = Some (name, ty).
Proof.
  unfold run, parse_and_run. apply run_lines_first_declaration. simpl. apply lookup_empty.
Qed.

Lemma variable_from_first_declaration_witness :
  exists l1 a l2,
    splitlines (program ["y: double;"; "x: integer;"; "x := 1;"; "x: double;"])
      = l1 ++ a :: l2 /\
    Forall (fun l => declares (T "x") l = false) l1 /\
    declaration a = Some (T "x", T "integer").
Proof.
  apply (variable_from_first_declaration
           (program ["y: double;"; "x: integer;"; "x := 1;"; "x: double;"])
           (T "x") (T "integer") (Some (VInt 1))).
  vm_compute. reflexivity.
Defined.

(** ** The diagnostics and the outputs of a run *)

Lemma ascending_weaken ks : forall lo lo', (lo' <= lo)%nat -> ascending lo ks -> ascending lo' ks.
Proof. destruct ks as [|k ks]; simpl; [done|]. intros lo lo' Hle [H1 H2]. split; [lia|done]. Qed.

Lemma line_effect_growth st i raw_line st1 :
  line_effect st i raw_line st1 ->
  source_lines st1 = source_lines st /\
  ((errors st1 = errors st /\ outputs st1 = outputs st) \/
   (exists m, errors st1 = errors st ++ [Diag (Some i) m] /\ outputs st1 = outputs st) \/
   (exists s, errors st1 = errors st /\ outputs st1 = outputs st ++ [s])).
Proof.
  intros [[->|(m & _ & ->)]|[(n & typ & old & val & _ & ->)|[(s & ->)
         |(n & typ & _ & [(_ & ->)|(_ & ->)])]]]; simpl; eauto 8.
Qed.

Lemma run_lines_growth lines :
  forall st i,
  exists ks ds os,
    errors (final (run_lines st i lines)) = errors st ++ ds /\
    outputs (final (run_lines st i lines)) = outputs st ++ os /\
    source_lines (final (run_lines st i lines)) = source_lines st /\
    map line ds = map Some ks /\
    ascending i ks /\
    Forall (fun k => (k < i + length lines)%nat) ks /\
    (length ds + length os <= length lines)%nat.
Proof.
  induction lines as [|l lines IH]; intros st i.
  { exists [], [], []. simpl. rewrite !app_nil_r. repeat split; solve [done|constructor|lia]. }
  rewrite run_lines_cons.
  pose proof (line_effect_growth _ _ _ _ (process_line_effect st i l)) as [Hsrc H1].
  assert (Hstop :
    exists ks ds os,
      errors (final (process_line st i l)) = errors st ++ ds /\
      outputs (final (process_line st i l)) = outputs st ++ os /\
      map line ds = map Some ks /\ ascending i ks /\
      Forall (fun k => (k < S i)%nat) ks /\ (length ds + length os <= 1)%nat).
  { destruct H1 as [[He Ho]|[(m & He & Ho)|(s & He & Ho)]].
    - exists [], [], []. rewrite He, Ho, !app_nil_r. simpl.
      repeat split; solve [done|constructor|lia].
    - exists [i], [Diag (Some i) m], []. rewrite He, Ho, !app_nil_r. simpl.
      repeat split; solve [done|lia|repeat constructor; lia].
    - exists [], [], [s]. rewrite He, Ho, !app_nil_r. simpl.
      repeat split; solve [done|constructor|lia]. }
  destruct (process_line st i l) as [st1|e st1]; simpl in Hsrc, Hstop |- *.
  - destruct (IH st1 (S i)) as (ks' & ds' & os' & He' & Ho' & Hs' & Hk' & Ha' & Hb' & Hl').
    destruct Hstop as (ks & ds & os & He & Ho & Hk & Ha & Hb & Hl).
    exists (ks ++ ks'), (ds ++ ds'), (os ++ os').
    rewrite He', Ho', Hs', He, Ho, Hsrc, <- !app_assoc, !map_app, Hk, Hk', !length_app.
    repeat split; try done; try lia.
    + destruct ks as [|k [|k2 ks]]; simpl in *.
      * by apply (ascending_weaken ks' (S i)); [lia|].
      * apply Forall_cons in Hb as [Hb _]. destruct Ha as [Ha _]. split; [done|].
        by replace k with i by lia.
      * destruct Ha as (Ha1 & Ha2 & _). apply Forall_cons in Hb as [Hb1 Hb].
        apply Forall_cons in Hb as [Hb2 _]. lia.
    + apply Forall_app. split.
      * eapply Forall_impl; [exact Hb|]. simpl. intros; lia.
      * eapply Forall_impl; [exact Hb'|]. simpl. intros; lia.
  - destruct Hstop as (ks & ds & os & He & Ho & Hk & Ha & Hb & Hl).
    exists ks, ds, os. repeat split; try done; [|lia].
    eapply Forall_impl; [exact Hb|]. simpl. intros; lia.
Qed.

(** X11. The diagnostics of a run all carry a line number; these
    numbers increase strictly along the list, so that no line has two
    diagnostics, and lie between 1 and the number of lines of the
    source. *)
Theorem diagnostics_in_line_order (src : text) :
  exists ks,
    map line (errors (final (run src))) = map Some ks /\
    ascending 1 ks /\
    Forall (fun k => (k <= length (splitlines src))%nat) ks.
Proof.
  unfold run, parse_and_run.
  destruct (run_lines_growth (source_lines (Interpreter src)) (Interpreter src) 1)
    as (ks & ds & os & He & _ & _ & Hk & Ha & Hb & _).
  exists ks. rewrite He. simpl. split; [done|]. split; [done|].
  eapply Forall_impl; [exact Hb|]. simpl. intros; lia.
Qed.

(** X12. [parse_and_run] only appends to the diagnostics and to the
    outputs of the object and keeps its lines, and a line adds at most
    one entry to the two lists together: a line that outputs records no
    diagnostic, and a line that records a diagnostic outputs nothing. *)
Theorem parse_and_run_appends (st : interp) :
  exists ds os,
    errors (final (parse_and_run st)) = errors st ++ ds /\
    outputs (final (parse_and_run st)) = outputs st ++ os /\
    source_lines (final (parse_and_run st)) = source_lines st /\
    (length ds + length os <= length (source_lines st))%nat.
Proof.
  unfold parse_and_run.
  destruct (run_lines_growth (source_lines st) st 1)
    as (ks & ds & os & He & Ho & Hs & _ & _ & _ & Hl).
  by exists ds, os.
Qed.

(** ** White space around a line *)

Lemma lstrip_split s :
  exists ws, s = ws ++ lstrip s /\ forallb is_space ws = true /\
             match lstrip s with [] => True | c :: _ => is_space c = false end.
Proof.
  induction s as [|c t IH]; simpl; [by exists []|].
  destruct (is_space c) eqn:Hc.
  - destruct IH as (ws & Ht & Hws & Hh). exists (c :: ws). simpl.
    rewrite Hc, Hws. split; [by rewrite <- Ht|done].
  - by exists [].
Qed.

Lemma lstrip_id c t : is_space c = false -> lstrip (c :: t) = c :: t.
Proof. simpl. by intros ->. Qed.

Lemma lstrip_spaces ws s : forallb is_space ws = true -> lstrip (ws ++ s) = lstrip s.
Proof.
  induction ws as [|c ws IH]; simpl; [done|]. intros H.
  apply andb_prop in H as [-> H]. by apply IH.
Qed.

Lemma lstrip_app c t b : is_space c = false -> lstrip ((c :: t) ++ b) = (c :: t) ++ b.
Proof. simpl. by intros ->. Qed.

Lemma forallb_rev {A} (p : A -> bool) (l : list A) : forallb p (rev l) = forallb p l.
Proof.
  induction l as [|x l IH]; simpl; [done|].
  rewrite forallb_app, IH. simpl. rewrite andb_true_r. apply andb_comm.
Qed.

Lemma rstrip_split s :
  exists ws, s = rstrip s ++ ws /\ forallb is_space ws = true /\
             match last (rstrip s) with None => rstrip s = [] | Some c => is_space c = false end.
Proof.
  unfold rstrip. destruct (lstrip_split (rev s)) as (ws & Hs & Hws & Hh).
  exists (rev ws). split; [|split].
  - rewrite <- rev_app_distr, <- Hs. by rewrite rev_involutive.
  - by rewrite forallb_rev.
  - destruct (lstrip (rev s)) as [|c t]; [done|]. simpl. by rewrite last_snoc.
Qed.

Lemma rstrip_spaces s ws : forallb is_space ws = true -> rstrip (s ++ ws) = rstrip s.
Proof.
  intros H. unfold rstrip. rewrite rev_app_distr, lstrip_spaces; [done|].
  by rewrite forallb_rev.
Qed.

Lemma rstrip_id s c : last s = Some c -> is_space c = false -> rstrip s = s.
Proof.
  intros Hl Hc. apply last_Some in Hl as [t ->]. unfold rstrip.
  rewrite rev_app_distr. simpl. rewrite Hc. simpl.
  by rewrite rev_involutive.
Qed.

Lemma rstrip_head c t : is_space c = false -> exists t', rstrip (c :: t) = c :: t'.
Proof.
  intros Hc. destruct (rstrip_split (c :: t)) as (ws & Hs & Hws & _).
  destruct (rstrip (c :: t)) as [|d t'] eqn:Hr.
  - simpl in Hs. subst ws. simpl in Hws. by rewrite Hc in Hws.
  - injection Hs as <- _. by exists t'.
Qed.

(** What [strip] returns begins and ends with characters that are not
    white space, or is empty. *)
Lemma strip_ends s :
  match strip s with
  | [] => True
  | c :: _ => is_space c = false /\ exists d, last (strip s) = Some d /\ is_space d = false
  end.
Proof.
  unfold strip. destruct (lstrip_split s) as (_ & _ & _ & Hh).
  destruct (lstrip s) as [|c t]; [done|].
  destruct (rstrip_head c t Hh) as [t' Hr].
  destruct (rstrip_split (c :: t)) as (_ & _ & _ & Hl). rewrite Hr in Hl |- *.
  split; [done|]. destruct (last (c :: t')) as [d|]; [by exists d|done].
Qed.

Lemma strip_id c t d :
  is_space c = false -> last (c :: t) = Some d -> is_space d = false ->
  strip (c :: t) = c :: t.
Proof.
  intros Hc Hl Hd. unfold strip. rewrite (lstrip_id c t Hc). by apply (rstrip_id _ d).
Qed.

Lemma strip_idem s : strip (strip s) = strip s.
Proof.
  pose proof (strip_ends s) as H. destruct (strip s) as [|c t]; [done|].
  destruct H as (Hc & d & Hl & Hd). by apply (strip_id c t d).
Qed.

Lemma strip_spaces a s b :
  forallb is_space a = true -> forallb is_space b = true -> strip (a ++ s ++ b) = strip s.
Proof.
  intros Ha Hb. unfold strip. rewrite (lstrip_spaces a _ Ha).
  destruct (lstrip_split s) as (ws & Hs & Hws & Hh).
  destruct (lstrip s) as [|c t] eqn:Hl.
  - rewrite app_nil_r in Hs. subst s.
    rewrite lstrip_spaces by done.
    destruct (lstrip_split b) as (wb & Hb' & _ & _).
    assert (Hlb : lstrip b = []).
    { clear -Hb. induction b as [|x b IH]; simpl; [done|]. simpl in Hb.
      apply andb_prop in Hb as [-> Hb]. by apply IH. }
    by rewrite Hlb.
  - rewrite Hs at 1. rewrite <- app_assoc, lstrip_spaces by done.
    rewrite (lstrip_app c t b Hh). by apply rstrip_spaces.
Qed.

(** X13. White space before and after a line is ignored: the loop
    body does to the state what it does for the line without it. *)
Theorem surrounding_whitespace_ignored (st : interp) (i : nat) (a l b : text) :
  forallb is_space a = true ->
  forallb is_space b = true ->
  process_line st i (a ++ l ++ b) = process_line st i l /\
  process_line st i (strip l) = process_line st i l.
Proof.
  intros Ha Hb. unfold process_line. by rewrite strip_spaces, strip_idem.
Qed.

Lemma surrounding_whitespace_ignored_witness :
  process_line x_integer 2 (T "  " ++ T "x := 1;" ++ ["009"%char])
    = process_line x_integer 2 (T "x := 1;") /\
  process_line x_integer 2 (strip (T "x := 1;")) = process_line x_integer 2 (T "x := 1;").
Proof.
  apply (surrounding_whitespace_ignored x_integer 2 (T "  ") (T "x := 1;") ["009"%char]);
    reflexivity.
Defined.

(** ** The statement inside a conditional *)

Lemma ends_with_semicolon_nonempty s : ends_with_semicolon s = true -> text_eqb s [] = false.
Proof. by destruct s. Qed.

Lemma process_line_inner st i raw_line stmt :
  taken_conditional st i raw_line stmt ->
  strip stmt = stmt /\ text_eqb stmt [] = false.
Proof.
  intros (m & _ & _ & -> & Hs). split; [apply strip_idem|by apply ends_with_semicolon_nonempty].
Qed.

(** X14. A conditional whose condition holds and whose inner
    statement ends with a semicolon does what the inner statement does
    as a line of its own, when this is an output or an assignment to a
    declared variable; for an assignment to an undeclared variable the
    two differ by the message only; any other inner statement is
    rejected. *)
Theorem taken_conditional_runs_statement (st : interp) (i : nat) (raw_line stmt : text) :
  taken_conditional st i raw_line stmt ->
  match rematch RE_ASSIGN stmt, rematch RE_OUTPUT stmt with
  | Some m2, _ =>
      match vars st !! grp 1 m2 with
      | Some _ => process_line st i raw_line = process_line st i stmt
      | None =>
          process_line st i raw_line
            = Done (error st (AssignUndeclaredInIf (grp 1 m2)) (Some i)) /\
          process_line st i stmt = Done (error st (AssignUndeclared (grp 1 m2)) (Some i))
      end
  | None, Some _ => process_line st i raw_line = process_line st i stmt
  | None, None => process_line st i raw_line = Done (error st UnsupportedInIf (Some i))
  end.
Proof.
  intros Ht. rewrite (process_line_taken st i raw_line stmt Ht).
  apply process_line_inner in Ht as [Hstrip Hne].
  unfold process_line. rewrite Hstrip, Hne.
  destruct (rematch RE_ASSIGN stmt) as [m2|] eqn:Ha.
  - destruct (rematch RE_DECL stmt) as [m1|] eqn:Hd.
    { apply RE_DECL_not_ASSIGN in Hd. congruence. }
    unfold assign. by destruct (vars st !! grp 1 m2) as [[typ old]|].
  - destruct (rematch RE_OUTPUT stmt) as [m2|] eqn:Ho; [|done].
    destruct (rematch RE_DECL stmt) as [m1|] eqn:Hd; [|done].
    apply RE_OUTPUT_not_DECL in Ho. congruence.
Qed.

Lemma taken_conditional_runs_statement_witness :
  match rematch RE_ASSIGN (T "output << 5;"), rematch RE_OUTPUT (T "output << 5;") with
  | Some m2, _ =>
      match vars (Interpreter []) !! grp 1 m2 with
      | Some _ => process_line (Interpreter []) 1 (T "if (1 < 2) output << 5;")
                  = process_line (Interpreter []) 1 (T "output << 5;")
      | None =>
          process_line (Interpreter []) 1 (T "if (1 < 2) output << 5;")
            = Done (error (Interpreter []) (AssignUndeclaredInIf (grp 1 m2)) (Some 1%nat)) /\
          process_line (Interpreter []) 1 (T "output << 5;")
            = Done (error (Interpreter []) (AssignUndeclared (grp 1 m2)) (Some 1%nat))
      end
  | None, Some _ => process_line (Interpreter []) 1 (T "if (1 < 2) output << 5;")
                    = process_line (Interpreter []) 1 (T "output << 5;")
  | None, None => process_line (Interpreter []) 1 (T "if (1 < 2) output << 5;")
                  = Done (error (Interpreter []) UnsupportedInIf (Some 1%nat))
  end.
Proof.
  apply (taken_conditional_runs_statement (Interpreter []) 1
           (T "if (1 < 2) output << 5;") (T "output << 5;")).
  eexists. split; [vm_compute; reflexivity|]. split; [vm_compute; reflexivity|].
  split; vm_compute; reflexivity.
Defined.

(** X15. A declaration or a conditional inside a conditional whose
    condition holds is rejected with the unsupported-statement
    diagnostic: no variable is declared and no inner condition is
    evaluated. *)
Theorem nested_statement_rejected (st : interp) (i : nat) (raw_line stmt : text) :
  taken_conditional st i raw_line stmt ->
  is_Some (rematch RE_DECL stmt) \/ is_Some (rematch RE_IF stmt) ->
  process_line st i raw_line = Done (error st UnsupportedInIf (Some i)).
Proof.
  intros Ht Hm. rewrite (process_line_taken st i raw_line stmt Ht).
  destruct Hm as [[m Hm]|[m Hm]].
  - rewrite (RE_DECL_not_ASSIGN _ _ Hm).
    destruct (rematch RE_OUTPUT stmt) as [m2|] eqn:Ho; [|done].
    apply RE_OUTPUT_not_DECL in Ho. congruence.
  - by rewrite (RE_IF_not_ASSIGN _ _ Hm), (RE_IF_not_OUTPUT _ _ Hm).
Qed.

Lemma nested_statement_rejected_witness :
  process_line (Interpreter []) 1 (T "if (1 < 2) x: integer;")
  = Done (error (Interpreter []) UnsupportedInIf (Some 1%nat)).
Proof.
  apply (nested_statement_rejected (Interpreter []) 1
           (T "if (1 < 2) x: integer;") (T "x: integer;")).
  - eexists. split; [vm_compute; reflexivity|]. split; [vm_compute; reflexivity|].
    split; vm_compute; reflexivity.
  - left. vm_compute. by eexists.
Defined.

(** ** Evaluation changes nothing but the diagnostics *)

Lemma py_float_not_ValueError v : py_float v <> Raise ValueError.
Proof. intros H. apply py_float_raise in H as [H|H]; discriminate. Qed.

Lemma eval_ast_raise a : forall e, eval_ast a = Raise e -> e = TypeError \/ e = OverflowError.
Proof.
  induction a as [v|a IH|a IH|a IHa b IHb|a IHa b IHb|f IHf|f IHf b IHb]; intros e; simpl.
  - discriminate.
  - destruct (eval_ast a) as [v|e']; simpl; [|intros [= <-]; by apply IH].
    destruct v; simpl; intros [= <-]; by left.
  - destruct (eval_ast a) as [v|e']; simpl; [|intros [= <-]; by apply IH].
    destruct v; simpl; intros [= <-]; by left.
  - destruct (eval_ast a) as [x|e']; simpl; [|intros [= <-]; by apply IHa].
    destruct (eval_ast b) as [y|e']; simpl; [|intros [= <-]; by apply IHb].
    destruct x as [x|f| |], y as [y|g| |]; simpl; try (intros [= <-]; by left).
    + destruct (is_finite _); simpl; intros [= <-]. by right.
    + destruct (is_finite _); simpl; intros [= <-]. by right.
  - destruct (eval_ast a) as [x|e']; simpl; [|intros [= <-]; by apply IHa].
    destruct (eval_ast b) as [y|e']; simpl; [|intros [= <-]; by apply IHb].
    destruct x as [x|f| |], y as [y|g| |]; simpl; try (intros [= <-]; by left).
    + destruct (is_finite _); simpl; intros [= <-]. by right.
    + destruct (is_finite _); simpl; intros [= <-]. by right.
  - destruct (eval_ast f) as [x|e']; simpl; intros [= <-]; [by left|by apply IHf].
  - destruct (eval_ast f) as [x|e']; simpl; [|intros [= <-]; by apply IHf].
    destruct (eval_ast b) as [y|e']; simpl; intros [= <-]; [by left|by apply IHb].
Qed.

Lemma py_eval_raise s e :
  py_eval s = Raise e -> e = SyntaxError \/ e = TypeError \/ e = OverflowError.
Proof.
  unfold py_eval. destruct (lex PNone s) as [ts|]; [|intros [= <-]; by left].
  destruct (parse [] empty_frame ts) as [a|]; [|intros [= <-]; by left].
  intros H. right. by apply eval_ast_raise in H.
Qed.

Lemma eval_expr_fail_records st expr i st1 :
  eval_expr st expr i = (st1, None) ->
  exists m, expr_message m /\ st1 = error st m (Some i).
Proof.
  unfold eval_expr.
  destruct (existsb _ expr); [intros [= <-]; eexists; split; [|reflexivity]; exact I|].
  destruct (re_sub RE_NAME (var_repl (vars st)) expr) as [m|expr_sub] eqn:Hs.
  { intros [= <-]. exists m. split; [|done].
    apply re_sub_from_inl in Hs as [w Hw]. by eapply var_repl_message. }
  destruct (existsb _ expr_sub); [intros [= <-]; eexists; split; [|reflexivity]; exact I|].
  destruct (py_eval expr_sub) as [v|e] eqn:He; [discriminate|].
  apply py_eval_raise in He as [-> | [-> | ->]]; intros [= <-];
    (eexists; split; [|reflexivity]; exact I).
Qed.

Lemma eval_condition_fail_records st cond i st1 :
  eval_condition st cond i = (st1, None) -> exists m, st1 = error st m (Some i).
Proof.
  intros H.
  destruct (eval_condition_cases st cond i) as [[b Hb]|[Hb|[Hb|[e Hb]]]].
  - congruence.
  - rewrite Hb in H. injection H as <-. by eexists.
  - destruct Hb as (m & side & st2 & _ & _ & He & Hb).
    rewrite Hb in H. injection H as <-.
    apply eval_expr_fail_records in He as (m' & _ & ->). by eexists.
  - rewrite Hb in H. injection H as <-. by eexists.
Qed.


(** ** Assignments *)

Lemma assign_cases in_if st name expr i :
  match vars st !! name with
  | None =>
      assign in_if st name expr i
      = Done (error st (if in_if then AssignUndeclaredInIf name else AssignUndeclared name)
                (Some i))
  | Some (typ, old) =>
      (exists e, assign in_if st name expr i = Crashed e st) \/
      (exists m, assign in_if st name expr i = Done (error st m (Some i))) \/
      (exists val, assign in_if st name expr i = Done (set_var st name typ (Some val)))
  end.
Proof.
  unfold assign. destruct (vars st !! name) as [[typ old]|]; [|done].
  destruct (eval_expr st expr i) as [st1 [val|]] eqn:He.
  - apply eval_expr_ok in He as ->.
    destruct (text_eqb typ (T "integer")).
    + destruct (f ← py_float val; py_round_float f); eauto.
    + destruct (py_float val); eauto.
  - apply eval_expr_fail_records in He as (m & _ & ->). eauto.
Qed.

(** X17. An assignment changes nothing but its target and the
    diagnostics. If the target is not declared the line is reported
    without the expression being evaluated. If it is declared, the line
    ends in one of three ways: the variable receives a value and keeps
    its type, with no diagnostic; or one diagnostic is recorded and the
    variable keeps the value it had; or an exception leaves the loop
    with the state unchanged. *)
Theorem assignment_outcomes (st : interp) (i : nat) (raw_line name expr : text) :
  assignment_line st i raw_line name expr ->
  match vars st !! name with
  | None =>
      exists m, (m = AssignUndeclared name \/ m = AssignUndeclaredInIf name) /\
                process_line st i raw_line = Done (error st m (Some i))
  | Some (typ, old) =>
      (exists e, process_line st i raw_line = Crashed e st) \/
      (exists m, process_line st i raw_line = Done (error st m (Some i))) \/
      (exists val, process_line st i raw_line = Done (set_var st name typ (Some val)))
  end.
Proof.
  intros H. apply (process_line_assignment st i) in H as [in_if ->].
  pose proof (assign_cases in_if st name expr i) as Hc.
  destruct (vars st !! name) as [[typ old]|]; [done|].
  rewrite Hc. eexists. split; [|done]. destruct in_if; auto.
Qed.

Lemma assignment_outcomes_witness :
  match vars x_integer !! T "y" with
  | None =>
      exists m, (m = AssignUndeclared (T "y") \/ m = AssignUndeclaredInIf (T "y")) /\
                process_line x_integer 2 (T "y := 2 * 3;") = Done (error x_integer m (Some 2%nat))
  | Some (typ, old) =>
      (exists e, process_line x_integer 2 (T "y := 2 * 3;") = Crashed e x_integer) \/
      (exists m, process_line x_integer 2 (T "y := 2 * 3;")
                 = Done (error x_integer m (Some 2%nat))) \/
      (exists val, process_line x_integer 2 (T "y := 2 * 3;")
                   = Done (set_var x_integer (T "y") typ (Some val)))
  end.
Proof.
  apply (assignment_outcomes x_integer 2 (T "y := 2 * 3;") (T "y") (T "2 * 3")).
  left. eexists. split; [vm_compute; reflexivity|]. split; vm_compute; reflexivity.
Defined.

(** ** Values that cannot be read back *)

Lemma occurs_In (v u : text) c : occurs v u -> In c v -> In c u.
Proof. intros (a & b & ->) H. rewrite !in_app_iff. tauto. Qed.

Lemma occurs_app_r (v a u : text) : occurs v u -> occurs v (a ++ u).
Proof. intros (x & y & ->). exists (a ++ x), y. by rewrite <- app_assoc. Qed.

Lemma re_sub_from_contains {E : Type} (r : regex) (repl : text -> E + text) s :
  forall pr skip u w,
    re_sub_from r repl pr s skip = inr u ->
    In w (re_findall_from r pr s skip) ->
    exists v, repl w = inr v /\ occurs v u.
Proof.
  induction s as [|c t IH]; intros pr skip u w; simpl; [intros _ []|].
  destruct skip as [|k]; [|apply IH].
  destruct (head (rmatch r (MState pr (c :: t) []))) as [m|].
  - destruct (consumed (MState pr (c :: t) []) m) as [|a x].
    + destruct (re_sub_from r repl (Some c) t 0) as [e|u'] eqn:Hs; [discriminate|].
      intros [= <-] Hw. destruct (IH _ _ _ _ Hs Hw) as (v & Hv & Ho).
      exists v. split; [done|]. by apply (occurs_app_r v [c]).
    + simpl. destruct (repl (a :: x)) as [e|v] eqn:Hr; [discriminate|].
      destruct (re_sub_from r repl (Some c) t (length x - 0)) as [e|u'] eqn:Hs; [discriminate|].
      intros [= <-] [<-|Hw].
      * exists v. split; [done|]. by exists [], u'.
      * destruct (IH _ _ _ _ Hs Hw) as (v' & Hv' & Ho).
        exists v'. split; [done|]. by apply occurs_app_r.
  - destruct (re_sub_from r repl (Some c) t 0) as [e|u'] eqn:Hs; [discriminate|].
    intros [= <-] Hw. destruct (IH _ _ _ _ Hs Hw) as (v & Hv & Ho).
    exists v. split; [done|]. by apply (occurs_app_r v [c]).
Qed.

Lemma repr_float_nonfinite f :
  is_finite f = false -> existsb (fun c => negb (arith_char c)) (repr_float f) = true.
Proof. destruct f as [s|[|]| |s m e]; try discriminate; reflexivity. Qed.

(** X18. The value of a variable is read through its text: when the
    text that [str] gives for the value holds a character other than a
    digit, a point, a sign, a parenthesis or white space, no expression
    that names the variable can be evaluated; every such evaluation
    fails with a diagnostic. It is so for a [double] variable that holds
    an infinity or a NaN, and for one whose value is written with an
    exponent. *)
Theorem unreadable_value_fails
    (st : interp) (expr : text) (i : nat) (name typ : text) (f : float) :
  In name (names_of expr) ->
  vars st !! name = Some (typ, Some (VFloat f)) ->
  is_finite f = false \/ existsb (fun c => negb (arith_char c)) (repr_float f) = true ->
  exists m,
    eval_expr st expr i = (error st m (Some i), None) /\
    (m = IllegalCharacter expr \/
     (exists u, m = IllegalAfterSubstitution u /\ occurs (repr_float f) u) \/
     (exists n, In n (names_of expr) /\
                (m = UsedBeforeAssignment n \/ m = UndeclaredInExpression n))).
Proof.
  intros Hin Hv Hbad.
  assert (Hex : existsb (fun c => negb (arith_char c)) (repr_float f) = true).
  { destruct Hbad as [Hbad|Hbad]; [by apply repr_float_nonfinite|done]. }
  clear Hbad. unfold eval_expr.
  destruct (existsb _ expr); [eexists; split; [done|by left]|].
  pose proof (re_sub_from_first_failure RE_NAME (var_repl (vars st)) expr None O) as Hff.
  fold (re_sub RE_NAME (var_repl (vars st)) expr) in Hff.
  fold (re_findall RE_NAME expr) in Hff. fold (names_of expr) in Hff.
  destruct (re_sub RE_NAME (var_repl (vars st)) expr) as [m|u] eqn:Hs.
  { exists m. split; [done|]. right; right.
    apply first_failure_var_repl in Hff as (pre & n & post & Hn & _ & Hm).
    exists n. split; [rewrite Hn, in_app_iff; right; by left|].
    destruct Hm as [(ty & _ & ->)|(_ & ->)]; auto. }
  destruct (re_sub_from_contains _ _ _ _ _ _ _ Hs Hin) as (v & Hrepl & Ho).
  unfold var_repl in Hrepl. rewrite Hv in Hrepl. injection Hrepl as <-. simpl in Ho.
  assert (Hu : existsb (fun c => negb (arith_char c)) u = true).
  { apply existsb_exists in Hex as (c & Hc & Hbad). apply existsb_exists.
    exists c. split; [by eapply occurs_In|done]. }
  rewrite Hu. eexists. split; [done|]. right; left. by exists u.
Qed.

Lemma unreadable_value_fails_witness :
  exists m,
    eval_expr (set_var d_double (T "d") (T "double") (Some (VFloat (S754_infinity false))))
              (T "d - 1") 3
    = (error (set_var d_double (T "d") (T "double") (Some (VFloat (S754_infinity false))))
             m (Some 3%nat), None) /\
    (m = IllegalCharacter (T "d - 1") \/
     (exists u, m = IllegalAfterSubstitution u /\ occurs (repr_float (S754_infinity false)) u) \/
     (exists n, In n (names_of (T "d - 1")) /\
                (m = UsedBeforeAssignment n \/ m = UndeclaredInExpression n))).
Proof.
  apply (unreadable_value_fails
           (set_var d_double (T "d") (T "double") (Some (VFloat (S754_infinity false))))
           (T "d - 1") 3 (T "d") (T "double") (S754_infinity false)).
  - vm_compute. by left.
  - vm_compute. reflexivity.
  - left. reflexivity.
Defined.

(** A [double] variable that received [10000000000000000.0] holds a
    value that [str] writes [1e+16]: it can no longer be read. *)
Example large_double_unreadable :
  let src := program ["d: double;"; "d := 10000000000000000.0;"; "output << d;"] in
  errors (final (run src)) = [Diag (Some 3%nat) (IllegalAfterSubstitution (T "1e+16"))] /\
  outputs (final (run src)) = [].
Proof. vm_compute. split; reflexivity. Qed.

(** ** Reading an integer variable *)










(** *** A text that is one name *)



Lemma rmatch_cat_cons r1 r2 st x xs :
  rmatch r1 st = x :: xs ->
  rmatch (Cat r1 r2) st = rmatch r2 x ++ flat_map (rmatch r2) xs.
Proof. simpl. by intros ->. Qed.






(** ** Names that can be declared and never read *)

Lemma star_states_prefix (p : ascii -> bool) cs (w : text) c r :
  forall pr,
    forallb p w = true -> p c = false ->
    exists l, star_states true p cs pr (w ++ c :: r) = MState (prev_of pr w) (c :: r) cs :: l.
Proof.
  induction w as [|d w IH]; intros pr H Hc; simpl.
  - rewrite Hc. by exists [].
  - simpl in H. apply andb_prop in H as [-> H].
    destruct (IH (Some d) H Hc) as [l ->]. rewrite prev_of_cons. by eexists.
Qed.

Lemma rematch_declaration (l : ascii) (w : text) :
  is_letter l = true -> forallb is_word w = true ->
  exists m, rematch RE_DECL (l :: w ++ T ": integer;") = Some m /\
            grp 1 m = l :: w /\ grp 2 m = T "integer".
Proof.
  intros Hl Hw. unfold rematch, RE_DECL, seq. cbn [fold_right].
  set (st0 := MState None (l :: w ++ T ": integer;") []).
  destruct (star_states_prefix is_word [] w ":"%char (T " integer;") (Some l) Hw eq_refl)
    as [x Hx].
  set (st1 := MState (prev_of (Some l) w) (T ": integer;") []) in *.
  rewrite (rmatch_cat_cons Bos _ _ st0 []) by reflexivity.
  rewrite (rmatch_cat_cons spaces _ _ st0 [])
    by (simpl; by rewrite (letter_not_space l Hl)).
  rewrite (rmatch_cat_cons (Grp 1 ident) _ _ (set_group 1 st0 st1) (map (set_group 1 st0) x)).
  2:{ cbn [rmatch ident]. unfold st0 at 2. cbn [rest]. rewrite Hl.
      cbn [flat_map advance caps prev rest]. rewrite app_nil_r.
      change (star_states true is_word (caps st0) (Some l) (w ++ T ": integer;"))
        with (star_states true is_word [] (Some l) (w ++ ":"%char :: T " integer;")).
      rewrite Hx. reflexivity. }
  assert (Hc : consumed st0 st1 = l :: w).
  { apply consumed_prefix. reflexivity. }
  unfold set_group at 1. rewrite Hc. unfold st1 at 1 2 3. cbn [prev rest caps].
  generalize (prev_of (Some l) w). intros pr.
  generalize (l :: w). intros name.
  eexists. split; [vm_compute; reflexivity|]. split; reflexivity.
Qed.

Lemma strip_statement (l : ascii) (w r : text) (d : ascii) :
  is_letter l = true -> is_space d = false ->
  strip (l :: w ++ r ++ [d]) = l :: w ++ r ++ [d].
Proof.
  intros Hl Hd. apply (strip_id l _ d); [by apply letter_not_space| |done].
  change (l :: w ++ r ++ [d]) with ((l :: w) ++ r ++ [d]).
  by rewrite !app_assoc, last_snoc.
Qed.

Lemma firstn_In {A} (n : nat) (l : list A) x : In x (firstn n l) -> In x l.
Proof.
  revert l. induction n as [|n IH]; intros [|y l]; simpl; try tauto.
  intros [H|H]; [by left|right; by apply IH].
Qed.

Lemma re_findall_from_In (r : regex) (s : text) :
  forall pr skip w c, In w (re_findall_from r pr s skip) -> In c w -> In c s.
Proof.
  induction s as [|d t IH]; intros pr skip w c; simpl; [intros []|].
  destruct skip as [|k]; [|intros Hw Hc; right; by eapply IH].
  destruct (head (rmatch r (MState pr (d :: t) []))) as [m|];
    [|intros Hw Hc; right; by eapply IH].
  destruct (consumed (MState pr (d :: t) []) m) as [|a x] eqn:Hcons;
    [intros Hw Hc; right; by eapply IH|].
  intros [<-|Hw] Hc; [|right; by eapply IH].
  rewrite <- Hcons in Hc. unfold consumed in Hc. by apply firstn_In in Hc.
Qed.

(** X20. Declarations accept names that expressions refuse. A name
    is a letter followed by word characters, which include the
    underscore and the accented letters; the declaration of such a name
    is carried out, and no expression that mentions it is ever
    evaluated: each is rejected for its illegal character, whatever the
    state. *)
Theorem declared_name_never_read (st : interp) (i : nat) (name : text) (c : ascii) :
  identifier name ->
  In c name ->
  expr_char c = false ->
  vars st !! name = None ->
  process_line st i (name ++ T ": integer;") = Done (set_var st name (T "integer") None) /\
  forall st' expr j,
    In name (names_of expr) ->
    eval_expr st' expr j = (error st' (IllegalCharacter expr) (Some j), None).
Proof.
  intros (l & w & -> & Hl & Hw) Hc Hbad Hv. split.
  - unfold process_line.
    change ((l :: w) ++ T ": integer;") with (l :: w ++ T ": integer" ++ [";"%char]).
    rewrite (strip_statement l w (T ": integer") ";"%char Hl eq_refl).
    change (l :: w ++ T ": integer" ++ [";"%char]) with (l :: w ++ T ": integer;").
    destruct (rematch_declaration l w Hl Hw) as (m & -> & -> & ->).
    by rewrite Hv.
  - intros st' expr j Hin. unfold eval_expr.
    assert (Hex : existsb (fun c => negb (expr_char c)) expr = true).
    { apply existsb_exists. exists c. split; [|by rewrite Hbad].
      by apply (re_findall_from_In RE_NAME expr None O (l :: w) c). }
    by rewrite Hex.
Qed.

Lemma declared_name_never_read_witness :
  process_line (Interpreter []) 1 (T "x_1" ++ T ": integer;")
    = Done (set_var (Interpreter []) (T "x_1") (T "integer") None) /\
  forall st' expr j,
    In (T "x_1") (names_of expr) ->
    eval_expr st' expr j = (error st' (IllegalCharacter expr) (Some j), None).
Proof.
  apply (declared_name_never_read (Interpreter []) 1 (T "x_1") "_"%char).
  - exists "x"%char, (T "_1"). by vm_compute.
  - vm_compute. tauto.
  - reflexivity.
  - vm_compute. reflexivity.
Defined.

(** ** The lines of the source *)

Lemma splitlines_from_line (l : text) :
  forall cur s,
    no_linebreak l ->
    splitlines_from cur (l ++ s) = splitlines_from (rev l ++ cur) s.
Proof.
  induction l as [|c l IH]; intros cur s Hl; [done|].
  assert (Hc : is_linebreak c = false) by (apply Hl; by left).
  assert (Hl' : no_linebreak l) by (intros d Hd; apply Hl; by right).
  simpl. rewrite Hc, (IH (c :: cur) s Hl'). by rewrite <- app_assoc.
Qed.

Lemma splitlines_from_terminated (term : text) (l s : text) :
  term = nl \/ term = crlf ->
  no_linebreak l ->
  splitlines_from [] (l ++ term ++ s) = l :: splitlines_from [] s.
Proof.
  intros Hterm Hl. rewrite (splitlines_from_line l [] _ Hl), app_nil_r.
  destruct Hterm as [-> | ->]; simpl; rewrite rev_involutive; by destruct s.
Qed.

Lemma splitlines_joined (term : text) (ls : list text) (s : text) :
  term = nl \/ term = crlf ->
  Forall no_linebreak ls ->
  splitlines_from [] (joined term ls ++ s) = ls ++ splitlines_from [] s.
Proof.
  intros Hterm Hls. induction Hls as [|l ls Hl Hls IH]; [done|].
  unfold joined in *. simpl. rewrite <- !app_assoc.
  rewrite (splitlines_from_terminated term l _ Hterm Hl). by rewrite IH.
Qed.

(** X21. [Interpreter(source_text)] holds the lines of the text: for
    lines without a line boundary, each followed by a line feed or each
    by a carriage return and a line feed, the object holds exactly these
    lines, and a last line without terminator is one more line. The
    terminator after the last line adds no line. *)
Theorem source_lines_of_joined (term : text) (ls : list text) (last : text) :
  term = nl \/ term = crlf ->
  Forall no_linebreak ls ->
  no_linebreak last ->
  source_lines (Interpreter (joined term ls)) = ls /\
  (last <> [] -> source_lines (Interpreter (joined term ls ++ last)) = ls ++ [last]) /\
  source_lines (Interpreter (joined term ls ++ last ++ term))
  = source_lines (Interpreter (joined term (ls ++ [last]))).
Proof.
  intros Hterm Hls Hlast. unfold Interpreter, splitlines. cbn [source_lines].
  split; [|split].
  - rewrite <- (app_nil_r (joined term ls)), (splitlines_joined term ls [] Hterm Hls).
    apply app_nil_r.
  - intros Hne. rewrite (splitlines_joined term ls last Hterm Hls). f_equal.
    rewrite <- (app_nil_r last) at 1. rewrite (splitlines_from_line last [] [] Hlast).
    rewrite app_nil_r. simpl. destruct (rev last) eqn:Hr.
    + apply (f_equal (@rev ascii)) in Hr. rewrite rev_involutive in Hr. done.
    + by rewrite <- Hr, rev_involutive.
  - unfold joined. by rewrite map_app, concat_app; simpl; rewrite app_nil_r.
Qed.

Lemma source_lines_of_joined_witness :
  source_lines (Interpreter (joined crlf [T "x: integer;"; T ""; T "x := 1;"]))
    = [T "x: integer;"; T ""; T "x := 1;"] /\
  (T "output << x;" <> [] ->
   source_lines (Interpreter (joined crlf [T "x: integer;"; T ""; T "x := 1;"]
                              ++ T "output << x;"))
   = [T "x: integer;"; T ""; T "x := 1;"] ++ [T "output << x;"]) /\
  source_lines (Interpreter (joined crlf [T "x: integer;"; T ""; T "x := 1;"]
                             ++ T "output << x;" ++ crlf))
  = source_lines (Interpreter (joined crlf ([T "x: integer;"; T ""; T "x := 1;"]
                                            ++ [T "output << x;"]))).
Proof.
  apply (source_lines_of_joined crlf [T "x: integer;"; T ""; T "x := 1;"] (T "output << x;")).
  - by right.
  - repeat constructor; intros c Hc; vm_compute in Hc; intuition (subst; reflexivity).
  - intros c Hc; vm_compute in Hc; intuition (subst; reflexivity).
Defined.

(** ** The four kinds of statement *)

(** X22. No text matches two of the four statement patterns, so the
    order in which [parse_and_run] tries them does not matter: a line is
    a declaration, an assignment, an output, a conditional, or none of
    them. *)
Theorem statement_patterns_exclusive (s : text) :
  (length (List.filter (matches s) statement_patterns) <= 1)%nat.
Proof.
  unfold statement_patterns, matches. cbn [List.filter].
  destruct (rematch RE_DECL s) as [m1|] eqn:H1.
  - rewrite (RE_DECL_not_ASSIGN s m1 H1).
    destruct (rematch RE_OUTPUT s) as [m3|] eqn:H3.
    { apply RE_OUTPUT_not_DECL in H3. congruence. }
    destruct (rematch RE_IF s) as [m4|] eqn:H4.
    { apply RE_IF_not_DECL in H4. congruence. }
    simpl. lia.
  - destruct (rematch RE_ASSIGN s) as [m2|] eqn:H2.
    + destruct (rematch RE_OUTPUT s) as [m3|] eqn:H3.
      { apply RE_OUTPUT_not_ASSIGN in H3. congruence. }
      destruct (rematch RE_IF s) as [m4|] eqn:H4.
      { apply RE_IF_not_ASSIGN in H4. congruence. }
      simpl. lia.
    + destruct (rematch RE_OUTPUT s) as [m3|] eqn:H3.
      * destruct (rematch RE_IF s) as [m4|] eqn:H4.
        { apply RE_IF_not_OUTPUT in H4. congruence. }
        simpl. lia.
      * destruct (rematch RE_IF s); simpl; lia.
Qed.

(** ** Output of a quoted text *)

Lemma strip_quotes_quoted (body : text) : strip_quotes (dquote :: body ++ [dquote]) = body.
Proof. unfold strip_quotes. simpl tail. apply removelast_last. Qed.

(** X23. An output statement whose payload begins and ends with a
    double quote emits what stands between the two, as it is written:
    nothing is evaluated and no diagnostic is recorded, whatever the
    text holds. The two tests do not ask for two quotes: a payload that
    is one double quote passes both, and emits the empty text. *)
Theorem quoted_payload_verbatim (st : interp) (i : nat) (raw_line payload : text) :
  output_line st i raw_line payload ->
  quoted payload = true ->
  process_line st i raw_line = Done (append_output st (strip_quotes payload)) /\
  (payload = [dquote] \/ exists body, payload = dquote :: body ++ [dquote]) /\
  (payload = [dquote] -> strip_quotes payload = []) /\
  (forall body, payload = dquote :: body ++ [dquote] -> strip_quotes payload = body).
Proof.
  intros Hline Hq. rewrite (process_line_output st i raw_line payload Hline).
  unfold output. rewrite Hq. split; [done|]. split; [|split].
  - unfold quoted in Hq. destruct payload as [|c t]; [discriminate|].
    apply andb_prop in Hq as [Hc Hl].
    assert (Hcq : c = dquote).
    { unfold is_char, code in Hc. apply N.eqb_eq in Hc.
      rewrite <- (ascii_N_embedding c), Hc. reflexivity. }
    subst c. destruct (last (dquote :: t)) as [d|] eqn:Hlast; [|discriminate].
    assert (Hdq : d = dquote).
    { unfold is_char, code in Hl. apply N.eqb_eq in Hl.
      rewrite <- (ascii_N_embedding d), Hl. reflexivity. }
    subst d. destruct t as [|x t]; [by left|right].
    change (last (dquote :: x :: t)) with (last (x :: t)) in Hlast.
    apply last_Some in Hlast as [body Hbody]. exists body. by rewrite Hbody.
  - by intros ->.
  - intros body ->. apply strip_quotes_quoted.
Qed.

Lemma quoted_payload_verbatim_witness :
  process_line (Interpreter []) 1 (T "output << " ++ [dquote] ++ T ";")
    = Done (append_output (Interpreter []) (strip_quotes [dquote])) /\
  ([dquote] = [dquote] \/ exists body, [dquote] = dquote :: body ++ [dquote]) /\
  ([dquote] = [dquote] -> strip_quotes [dquote] = []) /\
  (forall body, [dquote] = dquote :: body ++ [dquote] -> strip_quotes [dquote] = body).
Proof.
  apply (quoted_payload_verbatim (Interpreter []) 1
           (T "output << " ++ [dquote] ++ T ";") [dquote]).
  - left. eexists. split; vm_compute; reflexivity.
  - reflexivity.
Defined.

(** ** Conditions on integers *)

(** X24. A condition whose two sides evaluate to integers yields the
    comparison of the two integers that its operator stands for:
    equality, difference, greater than or less than; it records
    nothing. *)
Theorem integer_condition_decides
    (st : interp) (cond : text) (i : nat) (m : mstate) (a b : Z) :
  rematch RE_COND cond = Some m ->
  eval_expr st (strip (grp 1 m)) i = (st, Some (VInt a)) ->
  eval_expr st (strip (grp 3 m)) i = (st, Some (VInt b)) ->
  In (grp 2 m) operators /\
  eval_condition st cond i = (st, Some (compare_integers (grp 2 m) a b)).
Proof.
  intros Hm Ha Hb. pose proof (RE_COND_operator cond m Hm) as Hop.
  split; [done|]. unfold eval_condition. rewrite Hm, Ha, Hb.
  unfold compare_integers, operators in *.
  destruct Hop as [<-|[<-|[<-|[<-|[]]]]]; simpl.
  - unfold py_eq. simpl. rewrite Z.eqb_compare. by destruct (a ?= b).
  - unfold py_eq. simpl. rewrite Z.eqb_compare. by destruct (a ?= b).
  - unfold py_gt. simpl. rewrite Z.ltb_compare, (Z.compare_antisym a b).
    by destruct (a ?= b).
  - rewrite Z.ltb_compare. unfold py_lt. simpl. by destruct (a ?= b).
Qed.

Lemma integer_condition_decides_witness :
  exists m,
    rematch RE_COND (T "3 - 1 > 1") = Some m /\
    In (grp 2 m) operators /\
    eval_condition (Interpreter []) (T "3 - 1 > 1") 1
    = (Interpreter [], Some (compare_integers (grp 2 m) 2 1)).
Proof.
  eexists. split; [vm_compute; reflexivity|].
  apply (integer_condition_decides (Interpreter []) (T "3 - 1 > 1") 1 _ 2 1);
    vm_compute; reflexivity.
Defined.

(** ** The shape of a condition *)

Lemma rmatch_plus_split g p st st' :
  In st' (rmatch (plus g p) st) ->
  exists c pre, rest st = c :: pre ++ rest st' /\ p c = true /\ forallb p pre = true.
Proof.
  unfold plus. intros H. apply in_rmatch_cat in H as (x & Hx & H).
  apply rmatch_cls_split in Hx as (c & Hx & Hc).
  apply star_states_split in H as (pre & Hpre & Hp).
  exists c, pre. by rewrite Hx, Hpre.
Qed.

Lemma rmatch_cond_ops_split st st' :
  In st' (rmatch cond_ops st) -> exists op, rest st = op ++ rest st' /\ In op operators.
Proof.
  unfold cond_ops. intros Hx.
  change (In st' (rmatch (lit "==") st ++ rmatch (lit "!=") st
                  ++ rmatch (lit ">") st ++ rmatch (lit "<") st)) in Hx.
  rewrite !in_app_iff in Hx. unfold operators.
  destruct Hx as [H|[H|[H|H]]]; apply rmatch_literal in H;
    eexists; (split; [exact H|]); simpl; tauto.
Qed.

Lemma RE_COND_shape cond m :
  rematch RE_COND cond = Some m ->
  exists ws g1 ws2 op ws3 g3 tail,
    cond = ws ++ g1 ++ ws2 ++ op ++ ws3 ++ g3 ++ tail /\
    forallb is_space ws = true /\ forallb is_space ws2 = true /\
    forallb is_space ws3 = true /\
    grp 1 m = g1 /\ grp 2 m = op /\ grp 3 m = g3 /\
    In op operators /\ g1 <> [] /\ g3 <> [].
Proof.
  intros H. apply head_In in H. unfold RE_COND, seq in H. cbn [fold_right] in H.
  apply in_rmatch_cat in H as (s0 & H0 & H). apply rmatch_bos_rest in H0.
  apply in_rmatch_cat in H as (s1 & H1 & H). apply rmatch_spaces_split in H1 as (ws & H1 & Hws).
  apply in_rmatch_cat in H as (s2 & H2 & H).
  pose proof (rmatch_frame _ _ _ 1%nat H) as Hf1.
  apply rmatch_grp_group in H2 as (x2 & H2 & Hx2 & Hg1).
  apply rmatch_plus_split in H2 as (c1 & p1 & H2 & _ & _).
  rewrite (consumed_prefix (c1 :: p1) s1 x2 H2) in Hg1.
  apply in_rmatch_cat in H as (s3 & H3 & H). apply rmatch_spaces_split in H3 as (ws2 & H3 & Hws2).
  apply in_rmatch_cat in H as (s4 & H4 & H).
  pose proof (rmatch_frame _ _ _ 2%nat H) as Hf2.
  apply rmatch_grp_group in H4 as (x4 & H4 & Hx4 & Hg2).
  apply rmatch_cond_ops_split in H4 as (op & H4 & Hop).
  rewrite (consumed_prefix op s3 x4 H4) in Hg2.
  apply in_rmatch_cat in H as (s5 & H5 & H). apply rmatch_spaces_split in H5 as (ws3 & H5 & Hws3).
  apply in_rmatch_cat in H as (s6 & H6 & H).
  pose proof (rmatch_frame _ _ _ 3%nat H) as Hf3.
  apply rmatch_grp_group in H6 as (x6 & H6 & Hx6 & Hg3).
  apply rmatch_plus_split in H6 as (c3 & p3 & H6 & _ & _).
  rewrite (consumed_prefix (c3 :: p3) s5 x6 H6) in Hg3.
  exists ws, (c1 :: p1), ws2, op, ws3, (c3 :: p3), (rest s6).
  unfold grp. rewrite Hf1, Hg1, Hf2, Hg2, Hf3, Hg3 by (simpl; lia).
  repeat split; try done.
  rewrite H0 in H1. simpl in H1.
  rewrite H1, H2, <- Hx2, H3, H4, <- Hx4, H5, H6, <- Hx6.
  reflexivity.
Qed.

Lemma operators_comparison_char op :
  In op operators -> exists c, In c op /\ comparison_char c = true.
Proof.
  unfold operators. intros [<-|[<-|[<-|[<-|[]]]]].
  - exists "="%char. split; [by left|done].
  - exists "="%char. split; [right; by left|done].
  - exists ">"%char. split; [by left|done].
  - exists "<"%char. split; [by left|done].
Qed.

(** X25. A condition needs a comparison operator: a text with none
    of the characters [<], [=] and [>] is rejected as a condition of
    invalid format, without any evaluation; so is the condition of
    [if (x) ...]. *)
Theorem condition_needs_operator (st : interp) (cond : text) (i : nat) :
  existsb comparison_char cond = false ->
  eval_condition st cond i = (error st (InvalidCondition cond) (Some i), None).
Proof.
  intros Hno. unfold eval_condition.
  destruct (rematch RE_COND cond) as [m|] eqn:Hm; [exfalso|done].
  apply RE_COND_shape in Hm
    as (ws & g1 & ws2 & op & ws3 & g3 & tail & -> & _ & _ & _ & _ & _ & _ & Hop & _).
  apply operators_comparison_char in Hop as (c & Hc & Hcmp).
  assert (Hex : existsb comparison_char (ws ++ g1 ++ ws2 ++ op ++ ws3 ++ g3 ++ tail) = true).
  { apply existsb_exists. exists c. split; [|done]. rewrite !in_app_iff. tauto. }
  congruence.
Qed.

Lemma condition_needs_operator_witness :
  eval_condition x_integer (T "x") 2 = (error x_integer (InvalidCondition (T "x")) (Some 2%nat), None).
Proof. apply (condition_needs_operator x_integer (T "x") 2). reflexivity. Defined.

(** ** The operators that are not there *)

Lemma eval_expr_illegal st expr i c :
  In c expr -> expr_char c = false ->
  eval_expr st expr i = (error st (IllegalCharacter expr) (Some i), None).
Proof.
  intros Hin Hc. unfold eval_expr.
  assert (Hex : existsb (fun c => negb (expr_char c)) expr = true).
  { apply existsb_exists. exists c. by rewrite Hc. }
  by rewrite Hex.
Qed.

Lemma forallb_In {A} (p : A -> bool) (l : list A) x : forallb p l = true -> In x l -> p x = true.
Proof. intros H. by apply forallb_forall. Qed.

Lemma strip_In c s : In c s -> is_space c = false -> In c (strip s).
Proof.
  intros Hin Hc. unfold strip.
  destruct (lstrip_split s) as (ws & Hs & Hws & _).
  destruct (rstrip_split (lstrip s)) as (ws' & Hs' & Hws' & _).
  rewrite Hs, in_app_iff in Hin. destruct Hin as [Hin|Hin].
  { apply (forallb_In _ _ _ Hws) in Hin. congruence. }
  rewrite Hs', in_app_iff in Hin. destruct Hin as [Hin|Hin]; [done|].
  apply (forallb_In _ _ _ Hws') in Hin. congruence.
Qed.

Lemma app_position {A} (a : list A) :
  forall l (x : A) b r,
    a ++ b = l ++ x :: r ->
    (length l < length a)%nat -> In x a.
Proof.
  induction a as [|y a IH]; intros l x b r Heq Hlen; simpl in *; [lia|].
  destruct l as [|z l]; simpl in *.
  - injection Heq as -> _. by left.
  - injection Heq as _ Heq. right. apply (IH l x b r Heq). lia.
Qed.

Lemma app_position_eq {A} (a : list A) :
  forall l b t, a ++ b = l ++ t -> length a = length l -> a = l /\ b = t.
Proof.
  induction a as [|y a IH]; intros [|z l] b t Heq Hlen; simpl in *; try lia; [done|].
  injection Heq as -> Heq. destruct (IH l b t Heq) as [-> ->]; [lia|done].
Qed.

(** X26. The operators [<=] and [>=] are not there. A condition
    in which the first character that can begin an operator is the [<]
    or the [>] of such a pair never yields a boolean: the pattern takes
    [<] or [>] as the operator and leaves the [=] to the right side, or
    takes the pair into the left side, and the side that holds one of
    them is rejected for its illegal character; one diagnostic is
    recorded. *)
Theorem no_less_or_equal (st : interp) (i : nat) (l r : text) (x : ascii) :
  x = "<"%char \/ x = ">"%char ->
  existsb operator_start l = false ->
  exists m, eval_condition st (l ++ x :: "="%char :: r) i = (error st m (Some i), None).
Proof.
  intros Hx Hl.
  assert (Hxs : is_space x = false) by (destruct Hx as [-> | ->]; reflexivity).
  assert (Hxe : expr_char x = false) by (destruct Hx as [-> | ->]; reflexivity).
  destruct (eval_condition st (l ++ x :: "="%char :: r) i) as [st1 [b|]] eqn:Hc;
    [exfalso|apply eval_condition_fail_records in Hc as [m ->]; by exists m].
  unfold eval_condition in Hc.
  destruct (rematch RE_COND (l ++ x :: "="%char :: r)) as [m|] eqn:Hm; [|discriminate].
  apply RE_COND_shape in Hm
    as (ws & g1 & ws2 & op & ws3 & g3 & tail & Heq & Hws & Hws2 & Hws3
        & He1 & He2 & He3 & Hop & Hg1 & Hg3).
  rewrite He1, He2, He3 in Hc. clear He1 He2 He3 m.
  assert (Hleft : ~ In x g1).
  { intros Hin. rewrite (eval_expr_illegal st (strip g1) i x) in Hc; [discriminate| |done].
    by apply strip_In. }
  assert (Hright : ~ In "="%char g3).
  { intros Hin.
    destruct (eval_expr st (strip g1) i) as [st2 [lv|]] eqn:He1; [|discriminate].
    apply eval_expr_ok in He1 as ->.
    rewrite (eval_expr_illegal st (strip g3) i "="%char) in Hc; [discriminate| |done].
    by apply strip_In. }
  clear Hc.
  rewrite !app_assoc in Heq. rewrite <- (app_assoc _ op) in Heq.
  rewrite <- !app_assoc in Heq. rewrite !app_assoc in Heq.
  rewrite <- (app_assoc ((ws ++ g1) ++ ws2)) in Heq.
  rewrite <- (app_assoc ((ws ++ g1) ++ ws2)) in Heq.
  rewrite <- (app_assoc ((ws ++ g1) ++ ws2)) in Heq.
  destruct (Nat.lt_trichotomy (length ((ws ++ g1) ++ ws2)) (length l)) as [Hlt|[Hlen|Hgt]].
  - destruct op as [|o op']; [unfold operators in Hop; simpl in Hop; intuition discriminate|].
    change (((ws ++ g1) ++ ws2) ++ (((o :: op') ++ ws3) ++ g3) ++ tail)
      with (((ws ++ g1) ++ ws2) ++ o :: ((op' ++ ws3) ++ g3) ++ tail) in Heq.
    apply app_position in Heq; [|done].
    assert (Ho : operator_start o = true).
    { unfold operators in Hop. simpl in Hop.
      destruct Hop as [H|[H|[H|[H|[]]]]]; injection H as <- _; reflexivity. }
    assert (Hex : existsb operator_start l = true)
      by (apply existsb_exists; by exists o).
    congruence.
  - symmetry in Heq. apply app_position_eq in Heq as [_ Heq]; [|done].
    assert (Hop' : op = [x]).
    { unfold operators in Hop. simpl in Hop.
      destruct Hop as [H|[H|[H|[H|[]]]]]; subst op; simpl in Heq; injection Heq as <- Heq;
        destruct Hx as [Hx|Hx]; try discriminate; reflexivity. }
    subst op. simpl in Heq. injection Heq as Heq.
    destruct ws3 as [|w ws3].
    + destruct g3 as [|g g3]; [done|]. simpl in Heq. injection Heq as -> _.
      apply Hright. by left.
    + simpl in Heq, Hws3. injection Heq as -> _. discriminate.
  - symmetry in Heq. apply app_position in Heq; [|done].
    rewrite !in_app_iff in Heq. destruct Heq as [[Hin|Hin]|Hin]; [|done|].
    + apply (forallb_In _ _ _ Hws) in Hin. congruence.
    + apply (forallb_In _ _ _ Hws2) in Hin. congruence.
Qed.

Lemma no_less_or_equal_witness :
  exists m, eval_condition x_integer (T "1 " ++ "<"%char :: "="%char :: T " 2") 2
            = (error x_integer m (Some 2%nat), None).
Proof.
  apply (no_less_or_equal x_integer 2 (T "1 ") (T " 2") "<"%char).
  - by left.
  - reflexivity.
Defined.

